(** * wecom-push: the credential lifecycle of the WeCom sender

    A shallow embedding of [wecom.go].  The sender object, its two mutexes
    and the history of everything it does to the outside world are threaded
    through a state monad; the Go standard library (JSON codec, URL
    validation, multipart encoder) is an interface the development is
    parametric in; the remote provider is a function from the position of an
    HTTP exchange and the request to what the exchange yields. *)

From stdpp Require Import base strings gmap list.
From Stdlib Require Import ZArith Lia Ascii.

Local Open Scope Z_scope.

(** ** Go values *)

(** What [errors.New] builds, and the errors the standard library hands
    back ([net/http], [net/url], [io], [encoding/json], [mime/multipart]). *)
Inductive error : Type :=
| errors_New (text : string)
| lib_error (pkg text : string).

(** A Go [(T, error)] pair: either the value with a nil error, or the
    error. *)
Inductive result (A : Type) : Type :=
| Ok (a : A)
| Err (err : error).
Arguments Ok {A} a.
Arguments Err {A} err.

(** [type Filetype string] and its four constants. *)
Definition Filetype : Type := string.
Definition IMAGE : Filetype := "image".
Definition VOICE : Filetype := "voice".
Definition VIDEO : Filetype := "video".
Definition FILE : Filetype := "file".

(** The dynamic values an [any] holds in this program: what the map
    literals of [Text] and [File] store, and what [json.Unmarshal] puts
    into a [map[string]any] (numbers arrive as [float64]; the code never
    computes with them, so integral ones stand for all). *)
#[local] Unset Elimination Schemes.
Inductive any : Type :=
| any_nil
| any_bool (b : bool)
| any_int (n : Z)
| any_float64 (x : Z)
| any_string (s : string)
| any_Filetype (f : Filetype)
| any_slice (l : list any)
| any_map_string_string (m : gmap string string)
| any_map_string_any (m : gmap string any).
#[local] Set Elimination Schemes.

(** [m[key]] on a [map[string]any]: the zero value, a nil interface, when
    the key is absent. *)
Definition map_index (m : gmap string any) (key : string) : any :=
  default any_nil (m !! key).

(** [type accessResp struct]. *)
Record accessResp : Type := {
  Errcode : Z;
  Errmsg : string;
  AccessToken : string;
  ExpiresIn : Z
}.

(** The anonymous struct [send] decodes every response into. *)
Record statusResp : Type := {
  ErrCode : Z;
  ErrMsg : string
}.

(** [type TextInfo struct]; a Go [int] is an integer the decoder and the
    caller keep in range. *)
Record TextInfo : Type := {
  Touser : string;
  AgentID : Z;
  Content : string
}.

(** ** Outcomes of a call

    A call either returns, panics (also the runtime's fatal errors), blocks
    for ever on a mutex nobody will release, or is still recursing when the
    fuel of the model is used up. *)
Inductive outcome (A : Type) : Type :=
| Done (a : A)
| Panic (msg : string)
| Deadlock
| OutOfFuel.
Arguments Done {A} a.
Arguments Panic {A} msg.
Arguments Deadlock {A}.
Arguments OutOfFuel {A}.

(** ** The standard library the code calls

    [bytes] is [[]byte].  The three decoders are [json.Unmarshal] at the
    three target types of the source.  [url_Parse_ok] is the validation
    [http.NewRequest] performs on its URL; [multipart_FormFile] is the
    sequence [CreateFormFile], [io.Copy], [Close], [FormDataContentType]
    of [getMediaID], yielding the form body and its content type. *)
Class Platform : Type := {
  bytes : Type;
  json_Marshal : any → result bytes;
  json_Unmarshal_accessResp : bytes → result accessResp;
  json_Unmarshal_statusResp : bytes → result statusResp;
  json_Unmarshal_map : bytes → result (gmap string any);
  url_QueryEscape : string → string;
  url_Parse_ok : string → bool;
  multipart_FormFile : string → string → bytes → result (bytes * string)
}.

Section Wecom.

Context {platform : Platform}.

(** [type FileInfo struct]; the fields carry an [F] where [TextInfo] has
    the same name. *)
Record FileInfo : Type := {
  FTouser : string;
  FAgentID : Z;
  FContent : bytes;
  FFiletype : Filetype;
  FFilename : string;
  FTitle : string;
  FDescription : string
}.

(** An [*http.Request] as the code builds it (header keys as the source
    writes them), and what [Do] returns: a response whose body
    [io.ReadAll] either reads or fails on.  Closing the body, deferred in
    the source, has no effect the model could see. *)
Record Request : Type := {
  Method : string;
  URL : string;
  Header : list (string * string);
  Body : option bytes
}.

Record Response : Type := {
  ReadAll : result bytes
}.

(** ** The sender and the world around it *)

(** [type wecom struct]; a mutex is [true] while it is held. *)
Record wecom : Type := {
  corpid : string;
  corpsecret : string;
  accessToken : string;
  pushLock : bool;
  initLock : bool;
  isFirstAccessTokenErr : bool
}.

Inductive mutex : Type := PushLock | InitLock.

(** Everything observable the sender does: mutex operations, accesses to
    its two mutable fields, lines printed, HTTP exchanges with their
    outcome. *)
Inductive event : Type :=
| EvLock (m : mutex)
| EvUnlock (m : mutex)
| EvLoadToken (v : string)
| EvStoreToken (v : string)
| EvLoadFlag (v : bool)
| EvStoreFlag (v : bool)
| EvPrintln (line : string)
| EvHTTP (req : Request) (res : result Response).

(** [obj] is the object behind the [*wecom] receiver, [clock] counts the
    HTTP exchanges made so far, [trace] is the history, newest event
    first. *)
Record state : Type := {
  obj : wecom;
  clock : nat;
  trace : list event
}.

(** The provider and the network: what the [k]-th exchange yields for a
    request. *)
Variable server : nat → Request → result Response.

(** ** The monad *)

Definition M (A : Type) : Type := state → outcome A * state.

#[export] Instance M_ret : MRet M := λ A a s, (Done a, s).

#[export] Instance M_bind : MBind M := λ A B k c s,
  match c s with
  | (Done a, s') => k a s'
  | (Panic msg, s') => (Panic msg, s')
  | (Deadlock, s') => (Deadlock, s')
  | (OutOfFuel, s') => (OutOfFuel, s')
  end.

Definition panic {A : Type} (msg : string) : M A := λ s, (Panic msg, s).

Definition get_obj : M wecom := λ s, (Done (obj s), s).

Definition emit (e : event) (s : state) : state :=
  {| obj := obj s; clock := clock s; trace := e :: trace s |}.

Definition with_obj (o : wecom) (s : state) : state :=
  {| obj := o; clock := clock s; trace := trace s |}.

Definition held (m : mutex) (o : wecom) : bool :=
  match m with PushLock => pushLock o | InitLock => initLock o end.

Definition set_held (m : mutex) (b : bool) (o : wecom) : wecom :=
  match m with
  | PushLock =>
      {| corpid := corpid o; corpsecret := corpsecret o;
         accessToken := accessToken o; pushLock := b; initLock := initLock o;
         isFirstAccessTokenErr := isFirstAccessTokenErr o |}
  | InitLock =>
      {| corpid := corpid o; corpsecret := corpsecret o;
         accessToken := accessToken o; pushLock := pushLock o; initLock := b;
         isFirstAccessTokenErr := isFirstAccessTokenErr o |}
  end.

Definition set_accessToken (v : string) (o : wecom) : wecom :=
  {| corpid := corpid o; corpsecret := corpsecret o;
     accessToken := v; pushLock := pushLock o; initLock := initLock o;
     isFirstAccessTokenErr := isFirstAccessTokenErr o |}.

Definition set_isFirstAccessTokenErr (v : bool) (o : wecom) : wecom :=
  {| corpid := corpid o; corpsecret := corpsecret o;
     accessToken := accessToken o; pushLock := pushLock o;
     initLock := initLock o; isFirstAccessTokenErr := v |}.

(** [sync.Mutex.Lock]: the caller blocks while the mutex is held. *)
Definition Lock (m : mutex) : M unit := λ s,
  if held m (obj s) then (Deadlock, s)
  else (Done tt, emit (EvLock m) (with_obj (set_held m true (obj s)) s)).

(** [sync.Mutex.Unlock]: a fatal error on a mutex that is not held. *)
Definition Unlock (m : mutex) : M unit := λ s,
  if held m (obj s)
  then (Done tt, emit (EvUnlock m) (with_obj (set_held m false (obj s)) s))
  else (Panic "sync: unlock of unlocked mutex", s).

Definition load_accessToken : M string := λ s,
  (Done (accessToken (obj s)), emit (EvLoadToken (accessToken (obj s))) s).

Definition store_accessToken (v : string) : M unit := λ s,
  (Done tt, emit (EvStoreToken v) (with_obj (set_accessToken v (obj s)) s)).

Definition load_isFirstAccessTokenErr : M bool := λ s,
  (Done (isFirstAccessTokenErr (obj s)),
   emit (EvLoadFlag (isFirstAccessTokenErr (obj s))) s).

Definition store_isFirstAccessTokenErr (v : bool) : M unit := λ s,
  (Done tt,
   emit (EvStoreFlag v) (with_obj (set_isFirstAccessTokenErr v (obj s)) s)).

Definition fmt_Println (line : string) : M unit := λ s,
  (Done tt, emit (EvPrintln line) s).

(** [http.NewRequest]: fails on a URL that does not parse. *)
Definition http_NewRequest (method url : string) (body : option bytes)
  : result Request :=
  if url_Parse_ok url
  then Ok {| Method := method; URL := url; Header := []; Body := body |}
  else Err (lib_error "net/url" url).

(** [r.Header.Add(key, value)]. *)
Definition Header_Add (key value : string) (r : Request) : Request :=
  {| Method := Method r; URL := URL r;
     Header := Header r ++ [(key, value)]; Body := Body r |}.

(** [http.DefaultClient.Do]: one exchange with the provider. *)
Definition http_Do (r : Request) : M (result Response) := λ s,
  let res := server (clock s) r in
  (Done res,
   emit (EvHTTP r res)
     {| obj := obj s; clock := S (clock s); trace := trace s |}).

Definition io_ReadAll (r : Response) : result bytes := ReadAll r.

(** [url.Values.Encode] on pairs already in key order. *)
Fixpoint Values_Encode (d : list (string * string)) : string :=
  match d with
  | [] => EmptyString
  | [(k, v)] => url_QueryEscape k +:+ "=" +:+ url_QueryEscape v
  | (k, v) :: d' =>
      url_QueryEscape k +:+ "=" +:+ url_QueryEscape v +:+ "&"
        +:+ Values_Encode d'
  end.

(** ** [New] *)

Definition New (corpid corpsecret : string) : wecom :=
  {| corpid := corpid; corpsecret := corpsecret;
     accessToken := EmptyString;
     pushLock := false; initLock := false;
     isFirstAccessTokenErr := true |}.

(** ** [getAccessToken] *)

Definition gettoken_url : string :=
  "https://qyapi.weixin.qq.com/cgi-bin/gettoken".

Definition getAccessToken : M (option error) :=
  w ← get_obj;
  let reqUrl :=
    gettoken_url +:+ "?"
      +:+ Values_Encode [("corpid", corpid w); ("corpsecret", corpsecret w)] in
  match http_NewRequest "POST" reqUrl None with
  | Err err => mret (Some err)
  | Ok r =>
      let r := Header_Add "accept" "application/json" r in
      r2 ← http_Do r;
      match r2 with
      | Err err => mret (Some err)
      | Ok r2 =>
          match io_ReadAll r2 with
          | Err err => mret (Some err)
          | Ok b =>
              match json_Unmarshal_accessResp b with
              | Err err => mret (Some err)
              | Ok a =>
                  if negb (Errcode a =? 0)
                  then mret (Some (errors_New (Errmsg a)))
                  else store_accessToken (AccessToken a);; mret None
              end
          end
      end
  end.

(** ** [send]

    The closure [send] runs first (lines 78-88): under the initialisation
    mutex, fetch a credential when none is stored.  The deferred [Unlock]
    runs as the closure returns. *)
Definition ensureCredential : M (option error) :=
  Lock InitLock;;
  tok ← load_accessToken;
  err ← (if String.eqb tok EmptyString then getAccessToken else mret None);
  Unlock InitLock;;
  mret err.

Definition is_credential_error (code : Z) : bool :=
  (code =? 42001) || (code =? 40014) || (code =? 41001).

(** The [switch] on the three credential codes (lines 110-117). *)
Definition diagnose (code : Z) : M unit :=
  if code =? 42001 then fmt_Println "access_token过期"
  else if code =? 40014 then fmt_Println "access_token无效"
  else if code =? 41001 then fmt_Println "access_token错误"
  else mret tt.

(** Lines 97-141: what [send] does with the bytes [getResp] returned.
    [again] is the recursive call [w.send(getResp)]. *)
Definition on_response (again : M (result bytes)) (resp : bytes)
  : M (result bytes) :=
  match json_Unmarshal_statusResp resp with
  | Err err => mret (Err err)
  | Ok r =>
      Lock PushLock;;
      if ErrCode r =? 0 then
        Unlock PushLock;;
        mret (Ok resp)
      else if is_credential_error (ErrCode r) then
        isFirst ← load_isFirstAccessTokenErr;
        if (isFirst : bool) then
          diagnose (ErrCode r);;
          store_isFirstAccessTokenErr false;;
          err ← getAccessToken;
          Unlock PushLock;;
          match err with
          | Some err => mret (Err err)
          | None =>
              resp ← again;
              match resp with
              | Err err => mret (Err err)
              | Ok resp => mret (Ok resp)
              end
          end
        else
          Unlock PushLock;;
          store_isFirstAccessTokenErr true;;
          resp ← again;
          match resp with
          | Err err => mret (Err err)
          | Ok resp => mret (Ok resp)
          end
      else
        Unlock PushLock;;
        mret (Err (errors_New (ErrMsg r)))
  end.

(** One pass through the body of [send], lines 78-141. *)
Definition send_body (again : M (result bytes)) (getResp : M (result bytes))
  : M (result bytes) :=
  err ← ensureCredential;
  match err with
  | Some err => mret (Err err)
  | None =>
      resp ← getResp;
      match resp with
      | Err err => mret (Err err)
      | Ok resp => on_response again resp
      end
  end.

(** [send] calls itself without a bound; [fuel] bounds the depth of the
    recursion in the model. *)
Fixpoint send (fuel : nat) (getResp : M (result bytes)) : M (result bytes) :=
  match fuel with
  | O => λ s, (OutOfFuel, s)
  | S fuel' => send_body (send fuel' getResp) getResp
  end.

(** ** [Text] *)

(** A Go map literal: the entries are stored in source order, a later
    entry replacing an earlier one under the same key. *)
Definition map_literal {V : Type} (entries : list (string * V))
  : gmap string V :=
  fold_left (λ (m : gmap string V) (kv : string * V), <[kv.1 := kv.2]> m)
    entries ∅.

Definition message_send_url : string :=
  "https://qyapi.weixin.qq.com/cgi-bin/message/send?access_token=".

(** The map [d] of lines 153-161. *)
Definition Text_payload (t : TextInfo) : gmap string any :=
  map_literal
    [("touser", any_string (Touser t));
     ("msgtype", any_string "text");
     ("agentid", any_int (AgentID t));
     ("text", any_map_string_string (map_literal [("content", Content t)]));
     ("safe", any_string "0")].

(** The closure [buf] of [Text]. *)
Definition Text_buf (t : TextInfo) : M (result bytes) :=
  tok ← load_accessToken;
  let url := message_send_url +:+ tok in
  let d := Text_payload t in
  match json_Marshal (any_map_string_any d) with
  | Err err => mret (Err err)
  | Ok b =>
      match http_NewRequest "POST" url (Some b) with
      | Err err => mret (Err err)
      | Ok r =>
          let r := Header_Add "content-type" "application/json" r in
          let r := Header_Add "accept" "application/json" r in
          r2 ← http_Do r;
          match r2 with
          | Err err => mret (Err err)
          | Ok r2 =>
              match io_ReadAll r2 with
              | Err err => mret (Err err)
              | Ok b2 => mret (Ok b2)
              end
          end
      end
  end.

Definition Text (fuel : nat) (t : TextInfo) : M (option error) :=
  r ← send fuel (Text_buf t);
  match r with
  | Err err => mret (Some err)
  | Ok _ => mret None
  end.

(** ** [getMediaID] *)

Definition media_upload_url : string :=
  "https://qyapi.weixin.qq.com/cgi-bin/media/upload?access_token=".

(** The closure [buf] of [getMediaID]. *)
Definition getMediaID_buf (content : bytes) (filetype : Filetype)
    (filename : string) : M (result bytes) :=
  tok ← load_accessToken;
  let url := media_upload_url +:+ tok +:+ "&type=" +:+ filetype in
  match multipart_FormFile "media" filename content with
  | Err err => mret (Err err)
  | Ok (b, contentType) =>
      match http_NewRequest "POST" url (Some b) with
      | Err err => mret (Err err)
      | Ok r =>
          let r := Header_Add "content-type" contentType r in
          let r := Header_Add "accept" "application/json" r in
          r2 ← http_Do r;
          match r2 with
          | Err err => mret (Err err)
          | Ok r2 =>
              match io_ReadAll r2 with
              | Err err => mret (Err err)
              | Ok b2 => mret (Ok b2)
              end
          end
      end
  end.

(** The type assertion [v.(string)] in its one-result form: it panics
    unless the dynamic type of [v] is [string]. *)
Definition assert_string (v : any) : M string :=
  match v with
  | any_string s => mret s
  | _ => panic "interface conversion: interface {} is not string"
  end.

Definition getMediaID (fuel : nat) (content : bytes) (filetype : Filetype)
    (filename : string) : M (result string) :=
  b ← send fuel (getMediaID_buf content filetype filename);
  match b with
  | Err err => mret (Err err)
  | Ok b =>
      match json_Unmarshal_map b with
      | Err err => mret (Err err)
      | Ok m =>
          id ← assert_string (map_index m "media_id");
          mret (Ok id)
      end
  end.

(** ** [File] *)

(** The map [m] of lines 267-277; [media_id] is the string [getMediaID]
    returned. *)
Definition File_payload (f : FileInfo) (media_id : string)
  : gmap string any :=
  map_literal
    [("touser", any_string (FTouser f));
     ("msgtype", any_Filetype (FFiletype f));
     ("agentid", any_int (FAgentID f));
     (FFiletype f,
      any_map_string_string
        (map_literal
           [("media_id", media_id);
            ("title", FTitle f);
            ("description", FDescription f)]));
     ("safe", any_int 0)].

(** The closure [buf] of [File]. *)
Definition File_buf (f : FileInfo) (media_id : string) : M (result bytes) :=
  tok ← load_accessToken;
  let url := message_send_url +:+ tok in
  let m := File_payload f media_id in
  match json_Marshal (any_map_string_any m) with
  | Err err => mret (Err err)
  | Ok b =>
      match http_NewRequest "POST" url (Some b) with
      | Err err => mret (Err err)
      | Ok r =>
          let r := Header_Add "content-type" "application/json" r in
          let r := Header_Add "accept" "application/json" r in
          r2 ← http_Do r;
          match r2 with
          | Err err => mret (Err err)
          | Ok r2 =>
              match io_ReadAll r2 with
              | Err err => mret (Err err)
              | Ok body => mret (Ok body)
              end
          end
      end
  end.

Definition File (fuel : nat) (f : FileInfo) : M (option error) :=
  m ← getMediaID fuel (FContent f) (FFiletype f) (FFilename f);
  match m with
  | Err err => mret (Some err)
  | Ok m =>
      r ← send fuel (File_buf f m);
      match r with
      | Err err => mret (Some err)
      | Ok _ => mret None
      end
  end.

(** ** Sequences of public calls on one sender *)

Inductive call : Type :=
| CallText (t : TextInfo)
| CallFile (f : FileInfo).

Definition run_call (fuel : nat) (c : call) : M (option error) :=
  match c with
  | CallText t => Text fuel t
  | CallFile f => File fuel f
  end.

Fixpoint run_calls (fuel : nat) (cs : list call) : M (list (option error)) :=
  match cs with
  | [] => mret []
  | c :: cs' =>
      err ← run_call fuel c;
      errs ← run_calls fuel cs';
      mret (err :: errs)
  end.

(** A sender fresh from [New], before it has done anything. *)
Definition fresh (corpid corpsecret : string) : state :=
  {| obj := New corpid corpsecret; clock := 0%nat; trace := [] |}.

(** ** Vocabulary of the properties *)

(** The state after the events [evs] (newest first) that change nothing
    but the history. *)
Definition log (evs : list event) (s : state) : state :=
  {| obj := obj s; clock := clock s; trace := evs ++ trace s |}.

(** The request [getAccessToken] builds (lines 43-54), as a function of
    the sender. *)
Definition token_request (w : wecom) : result Request :=
  match
    http_NewRequest "POST"
      (gettoken_url +:+ "?"
         +:+ Values_Encode [("corpid", corpid w); ("corpsecret", corpsecret w)])
      None
  with
  | Err err => Err err
  | Ok r => Ok (Header_Add "accept" "application/json" r)
  end.

(** The requests the three closures build, as functions of the credential
    they read. *)
Definition Text_request (t : TextInfo) (tok : string) : result Request :=
  match json_Marshal (any_map_string_any (Text_payload t)) with
  | Err err => Err err
  | Ok b =>
      match http_NewRequest "POST" (message_send_url +:+ tok) (Some b) with
      | Err err => Err err
      | Ok r =>
          Ok (Header_Add "accept" "application/json"
                (Header_Add "content-type" "application/json" r))
      end
  end.

Definition upload_request (content : bytes) (filetype : Filetype)
    (filename : string) (tok : string) : result Request :=
  match multipart_FormFile "media" filename content with
  | Err err => Err err
  | Ok (b, contentType) =>
      match
        http_NewRequest "POST"
          (media_upload_url +:+ tok +:+ "&type=" +:+ filetype) (Some b)
      with
      | Err err => Err err
      | Ok r =>
          Ok (Header_Add "accept" "application/json"
                (Header_Add "content-type" contentType r))
      end
  end.

Definition File_request (f : FileInfo) (media_id : string) (tok : string)
  : result Request :=
  match json_Marshal (any_map_string_any (File_payload f media_id)) with
  | Err err => Err err
  | Ok b =>
      match http_NewRequest "POST" (message_send_url +:+ tok) (Some b) with
      | Err err => Err err
      | Ok r =>
          Ok (Header_Add "accept" "application/json"
                (Header_Add "content-type" "application/json" r))
      end
  end.

(** The common shape of the three closures: read the credential, build
    the request from it, make one exchange, read the body. *)
Definition exchange (mk : string → result Request) : M (result bytes) :=
  tok ← load_accessToken;
  match mk tok with
  | Err err => mret (Err err)
  | Ok r =>
      r2 ← http_Do r;
      match r2 with
      | Err err => mret (Err err)
      | Ok r2 =>
          match io_ReadAll r2 with
          | Err err => mret (Err err)
          | Ok b2 => mret (Ok b2)
          end
      end
  end.

(** The line the [switch] prints for a credential code. *)
Definition diagnostic (code : Z) : string :=
  if code =? 42001 then "access_token过期"
  else if code =? 40014 then "access_token无效"
  else "access_token错误".

(** The state in which [send] runs its closure for the second time,
    after a first response with the credential code [code] found the flag
    set in the state [s2], the token endpoint answered the request [treq]
    with [r2], and the token [tok] of that answer was stored. *)
Definition refreshed (code : Z) (treq : Request) (r2 : Response)
    (tok : string) (s2 : state) : state :=
  {| obj := set_accessToken tok (set_isFirstAccessTokenErr false (obj s2));
     clock := S (clock s2);
     trace := [EvUnlock InitLock; EvLoadToken tok; EvLock InitLock;
               EvUnlock PushLock; EvStoreToken tok; EvHTTP treq (Ok r2);
               EvStoreFlag false; EvPrintln (diagnostic code);
               EvLoadFlag true; EvLock PushLock] ++ trace s2 |}.

(** The part of [send_body] after the closure of lines 78-88. *)
Definition dispatch (again : M (result bytes)) (getResp : M (result bytes))
  : M (result bytes) :=
  resp ← getResp;
  match resp with
  | Err err => mret (Err err)
  | Ok resp => on_response again resp
  end.

Definition is_token_request (r : Request) : bool :=
  String.prefix gettoken_url (URL r).

(** A credential the closure can build its request from, and a sender
    whose credential, when it has one, is such. *)
Definition usable (mk : string → result Request) (tok : string) : Prop :=
  ∃ r, mk tok = Ok r ∧ is_token_request r = false.

Definition can_build (mk : string → result Request) (s : state) : Prop :=
  accessToken (obj s) = EmptyString ∨ usable mk (accessToken (obj s)).

(** The requests of a history, oldest first. *)
Fixpoint http_log (tr : list event) : list Request :=
  match tr with
  | [] => []
  | EvHTTP r _ :: tr' => http_log tr' ++ [r]
  | _ :: tr' => http_log tr'
  end.

(** How often the token endpoint was contacted. *)
Definition token_fetches (tr : list event) : nat :=
  length (filter (λ r, is_token_request r = true) (http_log tr)).

(** The values written to [isFirstAccessTokenErr], oldest first. *)
Fixpoint flag_stores (tr : list event) : list bool :=
  match tr with
  | [] => []
  | EvStoreFlag v :: tr' => flag_stores tr' ++ [v]
  | _ :: tr' => flag_stores tr'
  end.

(** Whether the push mutex is held at the end of a history. *)
Fixpoint push_held (tr : list event) : bool :=
  match tr with
  | [] => false
  | EvLock PushLock :: _ => true
  | EvUnlock PushLock :: _ => false
  | _ :: tr' => push_held tr'
  end.

(** What every pass of [send] starts from in a run without other
    callers: both mutexes free, and the identity pair the token request
    [treq] is built from. *)
Definition at_rest (treq : Request) (s : state) : Prop :=
  token_request (obj s) = Ok treq ∧ pushLock (obj s) = false ∧
  initLock (obj s) = false ∧ push_held (trace s) = false.

(** The exchanges of a history as the recovery sees them, oldest first:
    [false] for an exchange with another endpoint than the token endpoint
    (an attempt), [true] for a contact of the token endpoint made while
    the push mutex is held (a refresh by the recovery).  The fetches of the
    credential check, made under the initialisation mutex, are left out. *)
Fixpoint attempts_and_refreshes (tr : list event) : list bool :=
  match tr with
  | [] => []
  | EvHTTP r _ :: tr' =>
      if is_token_request r
      then (if push_held tr'
            then attempts_and_refreshes tr' ++ [true]
            else attempts_and_refreshes tr')
      else attempts_and_refreshes tr' ++ [false]
  | _ :: tr' => attempts_and_refreshes tr'
  end.



(** What a history says about the push mutex and the flag, oldest
    first. *)
Fixpoint push_and_flag_events (tr : list event) : list event :=
  match tr with
  | [] => []
  | EvLock PushLock :: tr' => push_and_flag_events tr' ++ [EvLock PushLock]
  | EvUnlock PushLock :: tr' =>
      push_and_flag_events tr' ++ [EvUnlock PushLock]
  | EvLoadFlag v :: tr' => push_and_flag_events tr' ++ [EvLoadFlag v]
  | EvStoreFlag v :: tr' => push_and_flag_events tr' ++ [EvStoreFlag v]
  | _ :: tr' => push_and_flag_events tr'
  end.

(** Every access to [isFirstAccessTokenErr] happens with the push mutex
    held. *)
Fixpoint flag_accesses_guarded (tr : list event) : bool :=
  match tr with
  | [] => true
  | EvLoadFlag _ :: tr' => push_held tr' && flag_accesses_guarded tr'
  | EvStoreFlag _ :: tr' => push_held tr' && flag_accesses_guarded tr'
  | _ :: tr' => flag_accesses_guarded tr'
  end.

(** An exchange came back with a body whose [errcode] is one of the three
    credential codes. *)
Definition credential_error_reply (res : result Response) : bool :=
  match res with
  | Ok r2 =>
      match ReadAll r2 with
      | Ok b =>
          match json_Unmarshal_statusResp b with
          | Ok r => is_credential_error (ErrCode r)
          | Err _ => false
          end
      | Err _ => false
      end
  | Err _ => false
  end.

(** What entitles the sender to contact the token endpoint at the end of
    a history: it has just found its credential empty under the
    initialisation mutex, or the last exchange was answered with a
    credential code and only the bookkeeping of the recovery followed. *)
Fixpoint fetch_justified (tr : list event) : bool :=
  match tr with
  | EvLoadToken v :: EvLock InitLock :: _ => String.eqb v EmptyString
  | EvStoreFlag false :: tr' => fetch_justified tr'
  | EvPrintln _ :: tr' => fetch_justified tr'
  | EvLoadFlag true :: tr' => fetch_justified tr'
  | EvLock PushLock :: tr' => fetch_justified tr'
  | EvHTTP r res :: _ => negb (is_token_request r) && credential_error_reply res
  | _ => false
  end.

(** Every contact of the token endpoint in a history was justified
    ([fetches_justified]), and a computation that keeps it so. *)
Fixpoint fetches_justified (tr : list event) : bool :=
  match tr with
  | [] => true
  | EvHTTP r res :: tr' =>
      (if is_token_request r then fetch_justified tr' else true)
      && fetches_justified tr'
  | _ :: tr' => fetches_justified tr'
  end.

(** The last event of the history is an exchange with another endpoint
    than the token endpoint, answered with the body [b]. *)
Definition answered_with (b : bytes) (s : state) : Prop :=
  ∃ r r2 tr, trace s = EvHTTP r (Ok r2) :: tr ∧
             is_token_request r = false ∧ ReadAll r2 = Ok b.

Definition keeps_fetches_justified {A : Type} (c : M A) : Prop :=
  ∀ s, fetches_justified (trace s) = true →
       fetches_justified (trace (c s).2) = true.

(** ** Vocabulary of further properties *)

(** The state in which [send] runs its closure again after a response with
    a credential code found the flag cleared in the state [s2]: nothing
    was fetched, the flag is set again. *)
Definition retried (s2 : state) : state :=
  {| obj := set_isFirstAccessTokenErr true (obj s2);
     clock := clock s2;
     trace := [EvUnlock InitLock; EvLoadToken (accessToken (obj s2));
               EvLock InitLock; EvStoreFlag true; EvUnlock PushLock;
               EvLoadFlag false; EvLock PushLock] ++ trace s2 |}.

(** Whether the initialisation mutex is held at the end of a history. *)
Fixpoint init_held (tr : list event) : bool :=
  match tr with
  | [] => false
  | EvLock InitLock :: _ => true
  | EvUnlock InitLock :: _ => false
  | _ :: tr' => init_held tr'
  end.

(** Every contact of the token endpoint in a history was made with one
    of the mutexes held, every other exchange with both free. *)
Fixpoint exchanges_locked (tr : list event) : bool :=
  match tr with
  | [] => true
  | EvHTTP r _ :: tr' =>
      (if is_token_request r
       then push_held tr' || init_held tr'
       else negb (push_held tr') && negb (init_held tr'))
      && exchanges_locked tr'
  | _ :: tr' => exchanges_locked tr'
  end.

(** Both mutexes are free. *)
Definition idle (s : state) : Prop :=
  pushLock (obj s) = false ∧ initLock (obj s) = false.

(** The history agrees with the mutexes of the sender, and its exchanges
    were made as [exchanges_locked] says. *)
Definition coherent (s : state) : Prop :=
  push_held (trace s) = pushLock (obj s) ∧
  init_held (trace s) = initLock (obj s) ∧
  exchanges_locked (trace s) = true.

(** The only panic of the program: the type assertion of [getMediaID]. *)
Definition assertion_panic : string :=
  "interface conversion: interface {} is not string".

(** A computation that, started with both mutexes free, ends with both
    free, keeps the identity pair, never blocks on a mutex and never
    panics but for the type assertion. *)
Definition orderly {A : Type} (c : M A) : Prop :=
  ∀ s, idle s → coherent s →
    idle (c s).2 ∧ coherent (c s).2 ∧
    corpid (obj (c s).2) = corpid (obj s) ∧
    corpsecret (obj (c s).2) = corpsecret (obj s) ∧
    (c s).1 ≠ Deadlock ∧
    ∀ msg, (c s).1 = Panic msg → msg = assertion_panic.

End Wecom.

(** ** A concrete platform to run the model on

    Byte strings are kept symbolic: the text of a JSON document is
    represented by the document, a multipart form by its single part. *)
Module Demo.

Inductive wire : Type :=
| wire_json (v : any)
| wire_form (fieldname filename : string) (content : wire)
| wire_text (s : string).

(** Decoding into an [int] and a [string] field: an absent key or [null]
    leaves the zero value, another type is an error. *)
Definition int_field (m : gmap string any) (key : string) : result Z :=
  match m !! key with
  | None => Ok 0
  | Some any_nil => Ok 0
  | Some (any_int n) => Ok n
  | Some (any_float64 n) => Ok n
  | Some _ => Err (lib_error "encoding/json" key)
  end.

Definition string_field (m : gmap string any) (key : string) : result string :=
  match m !! key with
  | None => Ok EmptyString
  | Some any_nil => Ok EmptyString
  | Some (any_string s) => Ok s
  | Some _ => Err (lib_error "encoding/json" key)
  end.

Definition Unmarshal_map (b : wire) : result (gmap string any) :=
  match b with
  | wire_json (any_map_string_any m) => Ok m
  | wire_json any_nil => Ok ∅
  | wire_json _ => Err (lib_error "encoding/json" "cannot unmarshal")
  | _ => Err (lib_error "encoding/json" "invalid character")
  end.

Definition Unmarshal_statusResp (b : wire) : result statusResp :=
  match Unmarshal_map b with
  | Err err => Err err
  | Ok m =>
      match int_field m "errcode", string_field m "errmsg" with
      | Ok code, Ok msg => Ok {| ErrCode := code; ErrMsg := msg |}
      | Err err, _ => Err err
      | _, Err err => Err err
      end
  end.

Definition Unmarshal_accessResp (b : wire) : result accessResp :=
  match Unmarshal_map b with
  | Err err => Err err
  | Ok m =>
      match int_field m "errcode", string_field m "errmsg",
            string_field m "access_token", int_field m "expires_in" with
      | Ok code, Ok msg, Ok tok, Ok ttl =>
          Ok {| Errcode := code; Errmsg := msg; AccessToken := tok;
                ExpiresIn := ttl |}
      | Err err, _, _, _ => Err err
      | _, Err err, _, _ => Err err
      | _, _, Err err, _ => Err err
      | _, _, _, Err err => Err err
      end
  end.

Definition unreserved (c : ascii) : bool :=
  let n := nat_of_ascii c in
  ((48 <=? n) && (n <=? 57) || (65 <=? n) && (n <=? 90)
   || (97 <=? n) && (n <=? 122) || (n =? 45) || (n =? 46) || (n =? 95)
   || (n =? 126))%nat.

Definition hex_digit (n : nat) : ascii :=
  default "0"%char (String.get n "0123456789ABCDEF").

Fixpoint QueryEscape (s : string) : string :=
  match s with
  | EmptyString => EmptyString
  | String c s' =>
      if unreserved c then String c (QueryEscape s')
      else if Ascii.eqb c " " then String "+" (QueryEscape s')
      else
        let n := nat_of_ascii c in
        String "%"
          (String (hex_digit (n / 16)) (String (hex_digit (n mod 16))
             (QueryEscape s')))
  end.

(** [url.Parse] rejects a URL with an ASCII control character. *)
Fixpoint no_control (s : string) : bool :=
  match s with
  | EmptyString => true
  | String c s' =>
      let n := nat_of_ascii c in
      (32 <=? n)%nat && negb (n =? 127)%nat && no_control s'
  end.

#[export] Instance platform : Platform := {|
  bytes := wire;
  json_Marshal := λ v, Ok (wire_json v);
  json_Unmarshal_accessResp := Unmarshal_accessResp;
  json_Unmarshal_statusResp := Unmarshal_statusResp;
  json_Unmarshal_map := Unmarshal_map;
  url_QueryEscape := QueryEscape;
  url_Parse_ok := no_control;
  multipart_FormFile := λ fieldname filename content,
    Ok (wire_form fieldname filename content,
        "multipart/form-data; boundary=b0")
|}.

(** The body that is the JSON object with the given members, and the
    response that carries a body. *)
Definition json_body (members : list (string * any)) : wire :=
  wire_json (any_map_string_any (map_literal members)).

Definition carrying (body : wire) : Response :=
  {| ReadAll := Ok body |}.

Definition reply (body : wire) : result Response :=
  Ok (carrying body).

Definition status_body (code : Z) (msg : string) : wire :=
  json_body [("errcode", any_float64 code); ("errmsg", any_string msg)].

Definition token_body (tok : string) : wire :=
  json_body [("errcode", any_float64 0); ("errmsg", any_string "ok");
             ("access_token", any_string tok);
             ("expires_in", any_float64 7200)].

Definition media_body (media_id : any) : wire :=
  json_body [("errcode", any_float64 0); ("errmsg", any_string "ok");
             ("type", any_string "file"); ("media_id", media_id)].

Definition status_reply (code : Z) (msg : string) : result Response :=
  reply (status_body code msg).

Definition token_reply (tok : string) : result Response :=
  reply (token_body tok).

Definition media_reply (media_id : any) : result Response :=
  reply (media_body media_id).

(** A provider that answers the [k]-th exchange with the [k]-th reply of a
    script, and is unreachable afterwards. *)
Definition scripted (replies : list (result Response))
  : nat → Request → result Response :=
  λ k _, default (Err (lib_error "net/http" "connection refused"))
           (replies !! k).

(** A provider that answers by endpoint, the same way every time. *)
Definition by_endpoint (token api : result Response)
  : nat → Request → result Response :=
  λ _ r, if is_token_request r then token else api.

(** A provider that accepts the first request, and one that rejects it
    for a reason that has nothing to do with the credential. *)
Definition accepting : nat → Request → result Response :=
  scripted [status_reply 0 "ok"].

Definition denied : nat → Request → result Response :=
  scripted [status_reply 40003 "denied"].

(** The provider reports an expired credential once, the token endpoint
    grants [T1], the resubmitted request is accepted. *)
Definition expired : nat → Request → result Response :=
  scripted [status_reply 42001 "expired"; token_reply "T1";
            status_reply 0 "ok"].

(** As [expired], but the token endpoint first answers errcode 0 with an
    empty [access_token]. *)
Definition empty_grant : nat → Request → result Response :=
  scripted [status_reply 42001 "expired"; token_reply EmptyString;
            token_reply "T2"; status_reply 0 "ok"].

(** The provider reports an expired credential twice in a row. *)
Definition twice_expired : nat → Request → result Response :=
  scripted [status_reply 42001 "expired"; token_reply "T1";
            status_reply 42001 "expired"; status_reply 0 "ok"].

(** The provider rejects every credential, the token endpoint grants
    [T1] every time. *)
Definition rejecting : nat → Request → result Response :=
  by_endpoint (token_reply "T1") (status_reply 42001 "expired").

(** The token endpoint does not know the corporation. *)
Definition invalid_corp : nat → Request → result Response :=
  λ _ _, status_reply 40013 "invalid corpid".

(** An upload and a send that are accepted, without and with the fetch
    of a credential before them. *)
Definition uploading : nat → Request → result Response :=
  scripted [media_reply (any_string "M1"); status_reply 0 "ok"].

Definition uploading_fresh : nat → Request → result Response :=
  scripted [token_reply "T1"; media_reply (any_string "M1");
            status_reply 0 "ok"].

(** The calls of the README. *)
Definition pony : TextInfo :=
  {| Touser := "Pony"; AgentID := 1000002; Content := "test" |}.

Definition pony_file : FileInfo :=
  {| FTouser := "Pony"; FAgentID := 1000002;
     FContent := wire_text "hello"; FFiletype := FILE;
     FFilename := "test.txt"; FTitle := EmptyString;
     FDescription := EmptyString |}.

(** The requests these calls make, for the identity pair of the
    examples. *)
Definition corp_token_request : Request :=
  {| Method := "POST";
     URL := gettoken_url +:+ "?corpid=corp&corpsecret=secret";
     Header := [("accept", "application/json")];
     Body := None |}.

Definition pony_message (tok : string) : Request :=
  {| Method := "POST";
     URL := message_send_url +:+ tok;
     Header := [("content-type", "application/json");
                ("accept", "application/json")];
     Body := Some (wire_json (any_map_string_any (Text_payload pony))) |}.

Definition pony_upload (tok : string) : Request :=
  {| Method := "POST";
     URL := media_upload_url +:+ tok +:+ "&type=file";
     Header := [("content-type", "multipart/form-data; boundary=b0");
                ("accept", "application/json")];
     Body := Some (wire_form "media" "test.txt" (wire_text "hello")) |}.

Definition pony_file_message (media_id tok : string) : Request :=
  {| Method := "POST";
     URL := message_send_url +:+ tok;
     Header := [("content-type", "application/json");
                ("accept", "application/json")];
     Body := Some (wire_json
                     (any_map_string_any (File_payload pony_file media_id))) |}.

(** A sender that already holds a credential. *)
Definition holding (tok : string) : state :=
  {| obj := set_accessToken tok (New "corp" "secret");
     clock := 0%nat; trace := [] |}.


(** The state in which the closure of [Text] has returned for the first
    time. *)
Definition first_response (server : nat → Request → result Response)
  : state :=
  (Text_buf server pony (ensureCredential server (holding "T0")).2).2.

(** A provider that cannot be reached, and one whose answer is no
    JSON. *)
Definition unreachable : nat → Request → result Response :=
  scripted [].

Definition garbled : nat → Request → result Response :=
  scripted [reply (wire_text "<html>")].

(** The provider reports an expired credential and the token endpoint
    then refuses the refresh. *)
Definition refresh_refused : nat → Request → result Response :=
  scripted [status_reply 42001 "expired";
            status_reply 40013 "invalid corpid"].

(** The provider reports an expired credential once and accepts the same
    request when it comes again. *)
Definition expired_then_accepted : nat → Request → result Response :=
  scripted [status_reply 42001 "expired"; status_reply 0 "ok"].

(** The token endpoint grants [T1], two messages are accepted. *)
Definition granting : nat → Request → result Response :=
  scripted [token_reply "T1"; status_reply 0 "ok"; status_reply 0 "ok"].

(** The upload is refused for a reason that has nothing to do with the
    credential. *)
Definition upload_refused : nat → Request → result Response :=
  scripted [status_reply 40004 "invalid media type"].

(** A credential with a line feed in it, which no URL can carry. *)
Definition broken_token : string :=
  String (ascii_of_nat 10) "T0".

(** A sender that holds a credential and has been through one recovery:
    the flag is cleared. *)
Definition recovered (tok : string) : state :=
  {| obj := set_isFirstAccessTokenErr false
              (set_accessToken tok (New "corp" "secret"));
     clock := 0%nat; trace := [] |}.

(** A file whose type is the name of another key of the message. *)
Definition safe_file : FileInfo :=
  {| FTouser := "Pony"; FAgentID := 1000002;
     FContent := wire_text "hello"; FFiletype := "safe";
     FFilename := "test.txt"; FTitle := EmptyString;
     FDescription := EmptyString |}.


End Demo.

(** * Properties *)

Section WecomFacts.

Context {platform : Platform}.
Variable server : nat → Request → result Response.

Ltac unfold_monad := unfold mbind, mret, M_bind, M_ret in *.

#[local] Arguments set_held : simpl never.
#[local] Arguments set_accessToken : simpl never.
#[local] Arguments set_isFirstAccessTokenErr : simpl never.

Lemma bind_Done {A B : Type} (c : M A) (k : A → M B) s a s' :
  c s = (Done a, s') → (c ≫= k) s = k a s'.
Proof. intros H. unfold_monad. by rewrite H. Qed.

Lemma set_held_release m o :
  held m o = false → set_held m false (set_held m true o) = o.
Proof. by destruct m, o; simpl; intros ->. Qed.

(** A mutex that is free can be taken and released again; the object is
    as before. *)
Lemma Lock_free m s :
  held m (obj s) = false →
  Lock m s = (Done tt, emit (EvLock m) (with_obj (set_held m true (obj s)) s)).
Proof. intros H. unfold Lock. by rewrite H. Qed.

Lemma Unlock_held m s :
  held m (obj s) = true →
  Unlock m s
  = (Done tt, emit (EvUnlock m) (with_obj (set_held m false (obj s)) s)).
Proof. intros H. unfold Unlock. by rewrite H. Qed.

(** [getAccessToken] in terms of the request it builds. *)
Lemma getAccessToken_unfold s :
  getAccessToken server s
  = match token_request (obj s) with
    | Err err => (Done (Some err), s)
    | Ok r =>
        let s1 := emit (EvHTTP r (server (clock s) r))
                    {| obj := obj s; clock := S (clock s); trace := trace s |} in
        match server (clock s) r with
        | Err err => (Done (Some err), s1)
        | Ok r2 =>
            match ReadAll r2 with
            | Err err => (Done (Some err), s1)
            | Ok b =>
                match json_Unmarshal_accessResp b with
                | Err err => (Done (Some err), s1)
                | Ok a =>
                    if negb (Errcode a =? 0)
                    then (Done (Some (errors_New (Errmsg a))), s1)
                    else (Done None,
                          emit (EvStoreToken (AccessToken a))
                            (with_obj (set_accessToken (AccessToken a) (obj s1))
                               s1))
                end
            end
        end
    end.
Proof.
  unfold getAccessToken, token_request, get_obj. unfold_monad.
  destruct (http_NewRequest _ _ _) as [r|err]; [|done].
  unfold http_Do, io_ReadAll. cbv zeta.
  destruct (server _ _) as [r2|err]; [|done].
  destruct (ReadAll r2) as [b|err]; [|done].
  destruct (json_Unmarshal_accessResp b) as [a|err]; [|done].
  by destruct (negb _).
Qed.

(** C10.  A credential fetch that does not succeed, whether the request
    cannot be built, the transport fails, the body cannot be read, the JSON
    does not decode or the token endpoint answers a non-zero errcode, leaves
    the stored credential as it was; the field is overwritten only when the
    endpoint answered with errcode 0, and then with the token of that
    answer. *)
Theorem getAccessToken_keeps_credential_on_failure (s : state) :
  match getAccessToken server s with
  | (Done None, s') =>
      ∃ r r2 b a,
        token_request (obj s) = Ok r ∧ server (clock s) r = Ok r2 ∧
        ReadAll r2 = Ok b ∧ json_Unmarshal_accessResp b = Ok a ∧
        Errcode a = 0 ∧ accessToken (obj s') = AccessToken a
  | (_, s') => accessToken (obj s') = accessToken (obj s)
  end.
Proof.
  rewrite getAccessToken_unfold.
  destruct (token_request (obj s)) as [r|err]; [|done]. cbv zeta.
  destruct (server (clock s) r) as [r2|err] eqn:Hsrv; [|done].
  destruct (ReadAll r2) as [b|err] eqn:Hread; [|done].
  destruct (json_Unmarshal_accessResp b) as [a|err] eqn:Hdec; [|done].
  destruct (Errcode a =? 0) eqn:Hcode; simpl; [|done].
  exists r, r2, b, a. repeat split; try done. by apply Z.eqb_eq.
Qed.

(** Taking and releasing the push mutex around a decision that touches
    nothing else. *)
Lemma push_section_returns {A : Type} (a : A) s :
  pushLock (obj s) = false →
  (Lock PushLock;; Unlock PushLock;; mret a) s
  = (Done a, log [EvUnlock PushLock; EvLock PushLock] s).
Proof.
  intros Hfree. unfold_monad. rewrite (Lock_free PushLock) by done.
  rewrite (Unlock_held PushLock) by done.
  unfold log, emit, with_obj; simpl. f_equal. f_equal.
  by apply (set_held_release PushLock).
Qed.

Lemma on_response_success again resp r s :
  json_Unmarshal_statusResp resp = Ok r →
  ErrCode r = 0 →
  pushLock (obj s) = false →
  on_response server again resp s
  = (Done (Ok resp), log [EvUnlock PushLock; EvLock PushLock] s).
Proof.
  intros Hdec Hcode Hfree. unfold on_response. rewrite Hdec, Hcode. simpl.
  by apply push_section_returns.
Qed.

Lemma on_response_other_code again resp r s :
  json_Unmarshal_statusResp resp = Ok r →
  ErrCode r ≠ 0 →
  is_credential_error (ErrCode r) = false →
  pushLock (obj s) = false →
  on_response server again resp s
  = (Done (Err (errors_New (ErrMsg r))),
     log [EvUnlock PushLock; EvLock PushLock] s).
Proof.
  intros Hdec Hcode Hcred Hfree. unfold on_response. rewrite Hdec, Hcred.
  apply Z.eqb_neq in Hcode. rewrite Hcode.
  by apply push_section_returns.
Qed.

(** One pass of [send], once the credential check and the closure have
    returned. *)
Lemma send_dispatched fuel getResp s s1 s2 resp :
  ensureCredential server s = (Done None, s1) →
  getResp s1 = (Done (Ok resp), s2) →
  send server (S fuel) getResp s
  = on_response server (send server fuel getResp) resp s2.
Proof.
  intros Hens Hget. simpl. unfold send_body.
  rewrite (bind_Done _ _ _ _ _ Hens). by rewrite (bind_Done _ _ _ _ _ Hget).
Qed.

(** C7.  When the response to a dispatched request decodes to errcode 0,
    [send] returns the bytes of that response as they are; after the
    closure has returned it only takes and releases the push mutex: no
    refresh and no further exchange (the clock and the history of the
    exchanges are those of [s2]), and the sender object, with the flag and
    the stored credential, is as the closure left it. *)
Theorem send_success_returns_bytes fuel getResp s s1 s2 resp r :
  ensureCredential server s = (Done None, s1) →
  getResp s1 = (Done (Ok resp), s2) →
  json_Unmarshal_statusResp resp = Ok r →
  ErrCode r = 0 →
  pushLock (obj s2) = false →
  send server (S fuel) getResp s
  = (Done (Ok resp), log [EvUnlock PushLock; EvLock PushLock] s2).
Proof.
  intros Hens Hget Hdec Hcode Hfree.
  rewrite (send_dispatched _ _ _ _ _ _ Hens Hget).
  by eapply on_response_success.
Qed.

(** C2, as amended.  When the response to a dispatched request decodes to
    an errcode that is neither 0 nor one of 42001, 40014, 41001, [send]
    returns the error [errors.New] builds from the provider's message, and
    nothing but the message; after the closure has returned it only takes
    and releases the push mutex: no retry, no refresh. *)
Theorem send_other_code_returns_message fuel getResp s s1 s2 resp r :
  ensureCredential server s = (Done None, s1) →
  getResp s1 = (Done (Ok resp), s2) →
  json_Unmarshal_statusResp resp = Ok r →
  ErrCode r ≠ 0 →
  is_credential_error (ErrCode r) = false →
  pushLock (obj s2) = false →
  send server (S fuel) getResp s
  = (Done (Err (errors_New (ErrMsg r))),
     log [EvUnlock PushLock; EvLock PushLock] s2).
Proof.
  intros Hens Hget Hdec Hcode Hcred Hfree.
  rewrite (send_dispatched _ _ _ _ _ _ Hens Hget).
  by eapply on_response_other_code.
Qed.

(** The two [if err != nil] after a recursive call hand its result on. *)
Lemma relay (again : M (result bytes)) s :
  (resp ← again;
   match resp with
   | Err err => mret (Err err)
   | Ok resp => mret (Ok resp)
   end) s = again s.
Proof.
  unfold_monad. by destruct (again s) as [[[?|?]|?| |] ?].
Qed.

Lemma diagnose_credential_error code s :
  is_credential_error code = true →
  diagnose code s = (Done tt, emit (EvPrintln (diagnostic code)) s).
Proof.
  unfold is_credential_error, diagnose, diagnostic, fmt_Println.
  destruct (code =? 42001), (code =? 40014), (code =? 41001); done.
Qed.

Lemma credential_error_nonzero code :
  is_credential_error code = true → (code =? 0) = false.
Proof.
  unfold is_credential_error. intros H. apply Z.eqb_neq. intros ->. done.
Qed.

(** [getAccessToken] always returns, and touches nothing of the sender
    but the credential. *)
Lemma getAccessToken_frame s :
  ∃ err s', getAccessToken server s = (Done err, s') ∧
    corpid (obj s') = corpid (obj s) ∧
    corpsecret (obj s') = corpsecret (obj s) ∧
    pushLock (obj s') = pushLock (obj s) ∧
    initLock (obj s') = initLock (obj s) ∧
    isFirstAccessTokenErr (obj s') = isFirstAccessTokenErr (obj s).
Proof.
  rewrite getAccessToken_unfold.
  destruct (token_request (obj s)) as [r|err]; [|by eauto 10]. cbv zeta.
  destruct (server (clock s) r) as [r2|err]; [|by eauto 10].
  destruct (ReadAll r2) as [b|err]; [|by eauto 10].
  destruct (json_Unmarshal_accessResp b) as [a|err]; [|by eauto 10].
  destruct (negb _); by eauto 10.
Qed.

(** The credential check of a sender that holds a credential: no
    exchange, the sender unchanged. *)
Lemma ensureCredential_ready s :
  initLock (obj s) = false →
  accessToken (obj s) ≠ EmptyString →
  ensureCredential server s
  = (Done None,
     log [EvUnlock InitLock; EvLoadToken (accessToken (obj s));
          EvLock InitLock] s).
Proof.
  intros Hfree Htok. unfold ensureCredential. unfold_monad.
  rewrite (Lock_free InitLock) by done. unfold load_accessToken. simpl.
  apply String.eqb_neq in Htok. rewrite Htok.
  unfold Unlock, log, emit, with_obj. simpl. do 2 f_equal.
  destruct s as [[] ? ?]. simpl in *. by subst.
Qed.

(** The recovery on a first credential error, up to the recursive call. *)
Lemma on_response_refresh again resp r s s4 :
  json_Unmarshal_statusResp resp = Ok r →
  is_credential_error (ErrCode r) = true →
  isFirstAccessTokenErr (obj s) = true →
  pushLock (obj s) = false →
  getAccessToken server
    {| obj := set_isFirstAccessTokenErr false (set_held PushLock true (obj s));
       clock := clock s;
       trace := EvStoreFlag false :: EvPrintln (diagnostic (ErrCode r))
                  :: EvLoadFlag true :: EvLock PushLock :: trace s |}
  = (Done None, s4) →
  on_response server again resp s
  = again (emit (EvUnlock PushLock)
             (with_obj (set_held PushLock false (obj s4)) s4)).
Proof.
  intros Hdec Hcred Hfirst Hfree Hfetch. unfold on_response.
  rewrite Hdec, Hcred, (credential_error_nonzero _ Hcred).
  unfold_monad. rewrite (Lock_free PushLock) by done.
  unfold load_isFirstAccessTokenErr. simpl. rewrite Hfirst.
  rewrite diagnose_credential_error by done.
  unfold store_isFirstAccessTokenErr, emit, with_obj. simpl.
  destruct (getAccessToken_frame
    {| obj := set_isFirstAccessTokenErr false (set_held PushLock true (obj s));
       clock := clock s;
       trace := EvStoreFlag false :: EvPrintln (diagnostic (ErrCode r))
                  :: EvLoadFlag true :: EvLock PushLock :: trace s |})
    as (err & s4' & Heq & _ & _ & Hpush & _).
  rewrite Hfetch in Heq. injection Heq as <- <-.
  rewrite Hfetch. simpl in Hpush.
  rewrite (Unlock_held PushLock) by done.
  apply relay.
Qed.

Lemma token_request_is_token w r :
  token_request w = Ok r → is_token_request r = true.
Proof.
  unfold token_request, http_NewRequest.
  destruct (url_Parse_ok _); [|done]. by intros [= <-].
Qed.

Lemma token_fetches_http r res tr :
  token_fetches (EvHTTP r res :: tr)
  = (token_fetches tr + (if is_token_request r then 1 else 0))%nat.
Proof.
  unfold token_fetches. simpl. rewrite filter_app, length_app. f_equal.
  rewrite filter_cons. destruct (is_token_request r); by case_decide.
Qed.

(** The token endpoint grants a credential: [getAccessToken] makes one
    exchange and stores the token of the answer. *)
Lemma getAccessToken_granted s treq r2 b a :
  token_request (obj s) = Ok treq →
  server (clock s) treq = Ok r2 →
  ReadAll r2 = Ok b →
  json_Unmarshal_accessResp b = Ok a →
  Errcode a = 0 →
  getAccessToken server s
  = (Done None,
     {| obj := set_accessToken (AccessToken a) (obj s);
        clock := S (clock s);
        trace := EvStoreToken (AccessToken a) :: EvHTTP treq (Ok r2)
                   :: trace s |}).
Proof.
  intros Hreq Hsrv Hread Hdec Hcode. rewrite getAccessToken_unfold.
  rewrite Hreq. cbv zeta. rewrite Hsrv, Hread, Hdec, Hcode. done.
Qed.

(** C3, as amended.  When the first response to a dispatched request
    carries one of the codes 42001, 40014, 41001 while the flag is set, and
    the token endpoint then grants a credential that is not empty, [send]
    prints the diagnostic, clears the flag, contacts the token endpoint
    once, stores the new credential and dispatches the same closure again:
    the second dispatch finds a credential, makes no exchange of its own
    before the closure, and runs the closure in a state whose credential is
    the one just fetched. *)
Theorem send_refreshes_once_and_redispatches
    fuel getResp s s1 s2 resp r treq r2 b a :
  ensureCredential server s = (Done None, s1) →
  getResp s1 = (Done (Ok resp), s2) →
  json_Unmarshal_statusResp resp = Ok r →
  is_credential_error (ErrCode r) = true →
  isFirstAccessTokenErr (obj s2) = true →
  pushLock (obj s2) = false →
  initLock (obj s2) = false →
  token_request (obj s2) = Ok treq →
  server (clock s2) treq = Ok r2 →
  ReadAll r2 = Ok b →
  json_Unmarshal_accessResp b = Ok a →
  Errcode a = 0 →
  AccessToken a ≠ EmptyString →
  send server (S (S fuel)) getResp s
  = dispatch server (send server fuel getResp) getResp
      (refreshed (ErrCode r) treq r2 (AccessToken a) s2)
  ∧ accessToken (obj (refreshed (ErrCode r) treq r2 (AccessToken a) s2))
    = AccessToken a
  ∧ token_fetches (trace (refreshed (ErrCode r) treq r2 (AccessToken a) s2))
    = S (token_fetches (trace s2)).
Proof.
  intros Hens Hget Hdec Hcred Hfirst Hpush Hinit Hreq Hsrv Hread Hdeca Hcode
    Htok.
  split; [|split].
  - rewrite (send_dispatched _ _ _ _ _ _ Hens Hget).
    erewrite on_response_refresh; try done; cycle 1.
    { by apply getAccessToken_granted with (b := b). }
    simpl. unfold send_body.
    erewrite bind_Done; cycle 1.
    { apply ensureCredential_ready; simpl.
      - by destruct (obj s2).
      - by destruct (obj s2). }
    unfold dispatch, refreshed, log, emit, with_obj. simpl.
    replace (set_held PushLock false
               (set_accessToken (AccessToken a)
                  (set_isFirstAccessTokenErr false
                     (set_held PushLock true (obj s2)))))
      with (set_accessToken (AccessToken a)
              (set_isFirstAccessTokenErr false (obj s2))); [done|].
    destruct (obj s2). simpl in *. by subst.
  - by destruct (obj s2).
  - change (token_fetches (trace (refreshed _ _ _ _ _)))
      with (token_fetches (EvHTTP treq (Ok r2) :: trace s2)).
    rewrite token_fetches_http, (token_request_is_token _ _ Hreq). lia.
Qed.

(** ** The recovery under a provider that keeps rejecting the credential *)

Section Alternation.

Variable getResp : M (result bytes).
Variable mk : string → result Request.
Variable treq : Request.
Variable horizon : nat.

Hypothesis closure_shape : ∀ s, getResp s = exchange server mk s.

Hypothesis token_granted : ∀ k r,
  (k < horizon)%nat →
  is_token_request r = true →
  ∃ r2 b a, server k r = Ok r2 ∧ ReadAll r2 = Ok b ∧
            json_Unmarshal_accessResp b = Ok a ∧ Errcode a = 0 ∧
            usable mk (AccessToken a).

Hypothesis credential_rejected : ∀ k r,
  (k < horizon)%nat →
  is_token_request r = false →
  ∃ r2 b st, server k r = Ok r2 ∧ ReadAll r2 = Ok b ∧
             json_Unmarshal_statusResp b = Ok st ∧
             is_credential_error (ErrCode st) = true.

Ltac fields :=
  unfold at_rest, token_request, set_accessToken, set_isFirstAccessTokenErr,
    set_held, with_obj, emit, log in *; simpl in *.

Lemma refresh_granted s :
  (clock s < horizon)%nat →
  token_request (obj s) = Ok treq →
  ∃ tok r2,
    usable mk tok ∧
    getAccessToken server s
    = (Done None,
       {| obj := set_accessToken tok (obj s); clock := S (clock s);
          trace := EvStoreToken tok :: EvHTTP treq (Ok r2) :: trace s |}).
Proof.
  intros Hclock Hreq.
  destruct (token_granted (clock s) treq Hclock
              (token_request_is_token _ _ Hreq))
    as (r2 & b & a & Hsrv & Hread & Hdec & Hcode & Huse).
  exists (AccessToken a), r2. split; [done|].
  by eapply getAccessToken_granted.
Qed.

Lemma ensureCredential_at_rest s :
  at_rest treq s →
  can_build mk s →
  (clock s < horizon)%nat →
  ∃ s1, ensureCredential server s = (Done None, s1) ∧ at_rest treq s1 ∧
    usable mk (accessToken (obj s1)) ∧
    (clock s1 ≤ S (clock s))%nat ∧
    isFirstAccessTokenErr (obj s1) = isFirstAccessTokenErr (obj s) ∧
    flag_stores (trace s1) = flag_stores (trace s) ∧
    attempts_and_refreshes (trace s1) = attempts_and_refreshes (trace s).
Proof.
  intros (Hreq & Hpush & Hinit & Hheld) Hbuild Hclock.
  destruct (String.eqb (accessToken (obj s)) EmptyString) eqn:Htok.
  - unfold ensureCredential. unfold_monad.
    rewrite (Lock_free InitLock) by done. unfold load_accessToken. simpl.
    rewrite Htok.
    edestruct (refresh_granted
      (emit (EvLoadToken (accessToken (obj s)))
         (emit (EvLock InitLock)
            (with_obj (set_held InitLock true (obj s)) s))))
      as (tok & r2 & Huse & ->); [done|by fields|].
    rewrite (Unlock_held InitLock) by done.
    eexists; split; [done|].
    pose proof (token_request_is_token _ _ Hreq) as Hkind.
    fields. by rewrite Hkind, Hheld.
  - apply String.eqb_neq in Htok.
    rewrite ensureCredential_ready by done.
    eexists; split; [done|].
    destruct Hbuild as [?|Huse]; [done|]. fields. repeat split; try done.
    lia.
Qed.

Lemma exchange_rejected s :
  at_rest treq s →
  usable mk (accessToken (obj s)) →
  (clock s < horizon)%nat →
  ∃ s2 b st, getResp s = (Done (Ok b), s2) ∧
    json_Unmarshal_statusResp b = Ok st ∧
    is_credential_error (ErrCode st) = true ∧ at_rest treq s2 ∧
    accessToken (obj s2) = accessToken (obj s) ∧
    clock s2 = S (clock s) ∧
    isFirstAccessTokenErr (obj s2) = isFirstAccessTokenErr (obj s) ∧
    flag_stores (trace s2) = flag_stores (trace s) ∧
    attempts_and_refreshes (trace s2)
    = attempts_and_refreshes (trace s) ++ [false].
Proof.
  intros (Hreq & Hpush & Hinit & Hheld) (r & Hmk & Hkind) Hclock.
  destruct (credential_rejected (clock s) r Hclock Hkind)
    as (r2 & b & st & Hsrv & Hread & Hdec & Hcred).
  rewrite closure_shape.
  unfold exchange, load_accessToken, http_Do, io_ReadAll. unfold_monad.
  simpl. rewrite Hmk. simpl. rewrite Hsrv, Hread.
  eexists _, b, st. split; [done|]. fields. by rewrite Hkind.
Qed.

Lemma on_response_rejected b st s :
  json_Unmarshal_statusResp b = Ok st →
  is_credential_error (ErrCode st) = true →
  at_rest treq s →
  usable mk (accessToken (obj s)) →
  (clock s < horizon)%nat →
  ∃ s3, (∀ again, on_response server again b s = again s3) ∧
    at_rest treq s3 ∧
    usable mk (accessToken (obj s3)) ∧
    (clock s3 ≤ S (clock s))%nat ∧
    isFirstAccessTokenErr (obj s3) = negb (isFirstAccessTokenErr (obj s)) ∧
    flag_stores (trace s3)
    = flag_stores (trace s) ++ [negb (isFirstAccessTokenErr (obj s))] ∧
    attempts_and_refreshes (trace s3)
    = attempts_and_refreshes (trace s)
        ++ (if isFirstAccessTokenErr (obj s) then [true] else []).
Proof.
  intros Hdec Hcred (Hreq & Hpush & Hinit & Hheld) Huse Hclock.
  pose proof (token_request_is_token _ _ Hreq) as Hkind.
  destruct (isFirstAccessTokenErr (obj s)) eqn:Hfirst.
  - edestruct (refresh_granted
      {| obj := set_isFirstAccessTokenErr false
                  (set_held PushLock true (obj s));
         clock := clock s;
         trace := EvStoreFlag false :: EvPrintln (diagnostic (ErrCode st))
                    :: EvLoadFlag true :: EvLock PushLock :: trace s |})
      as (tok & r2 & Huse' & Hfetch); [done|by fields|].
    eexists; split.
    { intros again. by erewrite on_response_refresh. }
    fields. by rewrite Hkind.
  - eexists; split.
    { intros again. unfold on_response.
      rewrite Hdec, Hcred, (credential_error_nonzero _ Hcred).
      unfold_monad. rewrite (Lock_free PushLock) by done.
      unfold load_isFirstAccessTokenErr. simpl. rewrite Hfirst.
      rewrite (Unlock_held PushLock) by done.
      unfold store_isFirstAccessTokenErr. apply relay. }
    fields. rewrite app_nil_r. repeat split; try done. lia.
Qed.


End Alternation.

(** ** Every contact of the token endpoint is justified *)

Lemma keeps_bind {A B : Type} (c : M A) (k : A → M B) :
  keeps_fetches_justified c →
  (∀ a, keeps_fetches_justified (k a)) →
  keeps_fetches_justified (c ≫= k).
Proof.
  intros Hc Hk s Hs. specialize (Hc s Hs). unfold_monad.
  destruct (c s) as [[a| | |] s1]; simpl in *; try done. by apply Hk.
Qed.

Lemma keeps_ret {A : Type} (a : A) : keeps_fetches_justified (mret a).
Proof. by intros s Hs. Qed.

Lemma keeps_Unlock m : keeps_fetches_justified (Unlock m).
Proof. intros s Hs. unfold Unlock. by destruct (held m (obj s)). Qed.

Lemma getAccessToken_justified s :
  fetches_justified (trace s) = true →
  fetch_justified (trace s) = true →
  fetches_justified (trace (getAccessToken server s).2) = true.
Proof.
  intros Hs Hnow. rewrite getAccessToken_unfold.
  destruct (token_request (obj s)) as [r|err]; [|done]. cbv zeta.
  assert (fetches_justified (EvHTTP r (server (clock s) r) :: trace s) = true)
    as Hstep.
  { simpl. rewrite Hs, Hnow. by destruct (is_token_request r). }
  destruct (server (clock s) r) as [r2|err]; [|done].
  destruct (ReadAll r2) as [b|err]; [|done].
  destruct (json_Unmarshal_accessResp b) as [a|err]; [|done].
  by destruct (negb _).
Qed.

Lemma ensureCredential_justified :
  keeps_fetches_justified (ensureCredential server).
Proof.
  intros s Hs. unfold ensureCredential. unfold_monad. unfold Lock.
  destruct (held InitLock (obj s)); [done|].
  unfold load_accessToken. simpl.
  destruct (String.eqb (accessToken (obj s)) EmptyString) eqn:Htok.
  - match goal with |- context [getAccessToken server ?s0] =>
      pose proof (getAccessToken_justified s0 Hs) as Hfetch;
      destruct (getAccessToken_frame s0) as (err & s1 & Heq & _)
    end.
    simpl in Hfetch. rewrite Heq in *. simpl in Hfetch.
    specialize (Hfetch Htok).
    pose proof (keeps_Unlock InitLock s1 Hfetch) as Hunlock.
    by destruct (Unlock InitLock s1) as [[[]| | |] s2].
  - match goal with |- context [Unlock InitLock ?s0] =>
      pose proof (keeps_Unlock InitLock s0 Hs) as Hunlock;
      by destruct (Unlock InitLock s0) as [[[]| | |] s2]
    end.
Qed.

Ltac finish_with H :=
  match goal with
  | |- context [?c ?s0] =>
      match type of (c s0) with
      | (outcome _ * state)%type =>
          let Hs0 := fresh in
          assert (fetches_justified (trace s0) = true) as Hs0
            by (simpl; done);
          pose proof (H s0 Hs0);
          destruct (c s0) as [[?| | |] ?]; simpl in *;
          repeat case_match; done
      end
  end.

Lemma exchange_justified mk s :
  (∀ tok r, mk tok = Ok r → is_token_request r = false) →
  fetches_justified (trace s) = true →
  fetches_justified (trace (exchange server mk s).2) = true ∧
  ∀ b s', exchange server mk s = (Done (Ok b), s') → answered_with b s'.
Proof.
  intros Hmk Hs. unfold exchange, load_accessToken, http_Do, io_ReadAll.
  unfold_monad. simpl.
  destruct (mk (accessToken (obj s))) as [r|err] eqn:Hr; [|done].
  apply Hmk in Hr. simpl.
  destruct (server (clock s) r) as [r2|err] eqn:Hsrv;
    [|simpl; by rewrite Hr, Hs].
  destruct (ReadAll r2) as [b|err] eqn:Hread; simpl; rewrite Hr, Hs;
    (split; [done|]); [|done].
  intros ? ? [= <- <-]. by exists r, r2, (EvLoadToken (accessToken (obj s)) :: trace s).
Qed.

Lemma on_response_justified (again : M (result bytes)) resp s :
  keeps_fetches_justified again →
  fetches_justified (trace s) = true →
  answered_with resp s →
  fetches_justified (trace (on_response server again resp s).2) = true.
Proof.
  intros Hagain Hs (r0 & r2 & tr & Htr & Hkind & Hread).
  unfold on_response.
  destruct (json_Unmarshal_statusResp resp) as [r|err] eqn:Hdec; [|done].
  unfold_monad. unfold Lock.
  destruct (held PushLock (obj s)) eqn:Hheld; [done|].
  destruct (ErrCode r =? 0).
  { finish_with (keeps_Unlock PushLock). }
  destruct (is_credential_error (ErrCode r)) eqn:Hcred; cycle 1.
  { finish_with (keeps_Unlock PushLock). }
  unfold load_isFirstAccessTokenErr. simpl.
  destruct (isFirstAccessTokenErr (obj s)).
  - rewrite diagnose_credential_error by done.
    unfold store_isFirstAccessTokenErr. simpl.
    match goal with |- context [getAccessToken server ?s0] =>
      pose proof (getAccessToken_justified s0) as Hfetch;
      destruct (getAccessToken_frame s0) as (err & s1 & Heq & _)
    end.
    simpl in Hfetch. rewrite Htr in Hfetch. simpl in Hfetch.
    rewrite Heq in *. simpl in Hfetch.
    unfold credential_error_reply in Hfetch.
    rewrite Hkind, Hread, Hdec, Hcred in Hfetch.
    rewrite Htr in Hs. simpl in Hs. rewrite Hkind in Hs.
    specialize (Hfetch Hs eq_refl).
    pose proof (keeps_Unlock PushLock s1 Hfetch) as Hunlock.
    destruct (Unlock PushLock s1) as [[[]| | |] s2]; try done.
    destruct err as [err|]; [done|]. simpl in Hunlock.
    finish_with Hagain.
  - rewrite (Unlock_held PushLock) by done.
    unfold store_isFirstAccessTokenErr. simpl.
    finish_with Hagain.
Qed.

Lemma send_justified mk fuel :
  (∀ tok r, mk tok = Ok r → is_token_request r = false) →
  keeps_fetches_justified (send server fuel (exchange server mk)).
Proof.
  intros Hmk. induction fuel as [|fuel IH]; intros s Hs; [done|].
  simpl. unfold send_body. unfold_monad.
  pose proof (ensureCredential_justified s Hs) as Hens.
  destruct (ensureCredential server s) as [[[err|]| | |] s1]; try done.
  simpl in Hens.
  destruct (exchange_justified mk s1 Hmk Hens) as [Hget Hans].
  destruct (exchange server mk s1) as [[[b|err]| | |] s2]; try done.
  simpl in Hget. apply on_response_justified; [done..|]. by apply Hans.
Qed.

(** ** The three closures *)

Lemma on_response_ext (again again' : M (result bytes)) resp s :
  (∀ s0, again s0 = again' s0) →
  on_response server again resp s = on_response server again' resp s.
Proof.
  intros Hext. unfold on_response.
  destruct (json_Unmarshal_statusResp resp) as [r|err]; [|done].
  unfold_monad.
  destruct (Lock PushLock s) as [[[]| | |] s1]; try done.
  destruct (ErrCode r =? 0); [done|].
  destruct (is_credential_error (ErrCode r)); [|done].
  destruct (load_isFirstAccessTokenErr s1) as [[[|]| | |] s2]; try done.
  - destruct (diagnose (ErrCode r) s2) as [[[]| | |] s3]; try done.
    destruct (store_isFirstAccessTokenErr false s3) as [[[]| | |] s4];
      try done.
    destruct (getAccessToken server s4) as [[[err|]| | |] s5]; try done.
    destruct (Unlock PushLock s5) as [[[]| | |] s6]; try done.
    by rewrite Hext.
  - destruct (Unlock PushLock s2) as [[[]| | |] s3]; try done.
    destruct (store_isFirstAccessTokenErr true s3) as [[[]| | |] s4];
      try done.
    by rewrite Hext.
Qed.

(** [send] sees its closure only through the calls it makes. *)
Lemma send_ext (getResp getResp' : M (result bytes)) fuel s :
  (∀ s0, getResp s0 = getResp' s0) →
  send server fuel getResp s = send server fuel getResp' s.
Proof.
  intros Hext. revert s. induction fuel as [|fuel IH]; intros s; [done|].
  simpl. unfold send_body. unfold_monad.
  destruct (ensureCredential server s) as [[[err|]| | |] s1]; try done.
  rewrite Hext.
  destruct (getResp' s1) as [[[b|err]| | |] s2]; try done.
  by apply on_response_ext.
Qed.

Lemma Text_buf_exchange t s :
  Text_buf server t s = exchange server (Text_request t) s.
Proof.
  unfold Text_buf, exchange, Text_request. unfold_monad.
  destruct (load_accessToken s) as [[tok| | |] s1]; try done.
  destruct (json_Marshal _) as [b|err]; [|done].
  by destruct (http_NewRequest _ _ _) as [r|err].
Qed.

Lemma getMediaID_buf_exchange content filetype filename s :
  getMediaID_buf server content filetype filename s
  = exchange server (upload_request content filetype filename) s.
Proof.
  unfold getMediaID_buf, exchange, upload_request. unfold_monad.
  destruct (load_accessToken s) as [[tok| | |] s1]; try done.
  destruct (multipart_FormFile _ _ _) as [[b contentType]|err]; [|done].
  by destruct (http_NewRequest _ _ _) as [r|err].
Qed.

Lemma File_buf_exchange f media_id s :
  File_buf server f media_id s
  = exchange server (File_request f media_id) s.
Proof.
  unfold File_buf, exchange, File_request. unfold_monad.
  destruct (load_accessToken s) as [[tok| | |] s1]; try done.
  destruct (json_Marshal _) as [b|err]; [|done].
  by destruct (http_NewRequest _ _ _) as [r|err].
Qed.

(** None of the three closures talks to the token endpoint. *)
Lemma Text_request_kind t tok r :
  Text_request t tok = Ok r →
  URL r = message_send_url +:+ tok ∧ is_token_request r = false.
Proof.
  unfold Text_request, http_NewRequest.
  destruct (json_Marshal _) as [b|err]; [|done].
  destruct (url_Parse_ok _); [|done]. by intros [= <-].
Qed.

Lemma upload_request_kind content filetype filename tok r :
  upload_request content filetype filename tok = Ok r →
  URL r = media_upload_url +:+ tok +:+ "&type=" +:+ filetype ∧
  is_token_request r = false.
Proof.
  unfold upload_request, http_NewRequest.
  destruct (multipart_FormFile _ _ _) as [[b contentType]|err]; [|done].
  destruct (url_Parse_ok _); [|done]. by intros [= <-].
Qed.

Lemma File_request_kind f media_id tok r :
  File_request f media_id tok = Ok r →
  URL r = message_send_url +:+ tok ∧ is_token_request r = false ∧
  ∃ b, json_Marshal (any_map_string_any (File_payload f media_id)) = Ok b ∧
       Body r = Some b.
Proof.
  unfold File_request, http_NewRequest.
  destruct (json_Marshal _) as [b|err]; [|done].
  destruct (url_Parse_ok _); [|done]. intros [= <-]. eauto.
Qed.

Lemma send_closure_justified (getResp : M (result bytes)) mk fuel :
  (∀ s, getResp s = exchange server mk s) →
  (∀ tok r, mk tok = Ok r → is_token_request r = false) →
  keeps_fetches_justified (send server fuel getResp).
Proof.
  intros Hext Hmk s Hs. rewrite (send_ext _ _ _ _ Hext).
  by apply send_justified.
Qed.

Lemma Text_justified fuel t : keeps_fetches_justified (Text server fuel t).
Proof.
  apply keeps_bind.
  - apply send_closure_justified with (mk := Text_request t).
    + apply Text_buf_exchange.
    + intros tok r Hr. by apply Text_request_kind in Hr as [_ ?].
  - intros [?|?]; apply keeps_ret.
Qed.

Lemma getMediaID_justified fuel content filetype filename :
  keeps_fetches_justified (getMediaID server fuel content filetype filename).
Proof.
  apply keeps_bind.
  - apply send_closure_justified
      with (mk := upload_request content filetype filename).
    + apply getMediaID_buf_exchange.
    + intros tok r Hr. by apply upload_request_kind in Hr as [_ ?].
  - intros [b|err]; [|apply keeps_ret].
    destruct (json_Unmarshal_map b) as [m|err]; [|apply keeps_ret].
    apply keeps_bind; [|intros; apply keeps_ret].
    intros s Hs. unfold assert_string. by destruct (map_index m _).
Qed.

Lemma File_justified fuel f : keeps_fetches_justified (File server fuel f).
Proof.
  apply keeps_bind; [apply getMediaID_justified|].
  intros [m|err]; [|apply keeps_ret].
  apply keeps_bind.
  - apply send_closure_justified with (mk := File_request f m).
    + apply File_buf_exchange.
    + intros tok r Hr. by apply File_request_kind in Hr as (_ & ? & _).
  - intros [?|?]; apply keeps_ret.
Qed.

(** C6, as amended.  In every sequence of [Text] and [File] calls on a
    sender fresh from [New], whatever the provider answers, each contact of
    the token endpoint is made either by a dispatch that has just found the
    stored credential empty under the initialisation mutex, or by the
    recovery right after a response carrying a credential-error code; a
    dispatch that finds a credential stored goes on without contacting the
    token endpoint.  (A fetch that fails leaves the credential empty, and
    the next dispatch fetches again.) *)
Theorem token_endpoint_contacted_only_when_justified
    fuel (cs : list call) (corpid corpsecret : string) :
  fetches_justified
    (trace (run_calls server fuel cs (fresh corpid corpsecret)).2) = true.
Proof.
  assert (keeps_fetches_justified (run_calls server fuel cs)) as Hkeeps.
  { induction cs as [|c cs IH]; [apply keeps_ret|].
    apply keeps_bind.
    - destruct c; [apply Text_justified|apply File_justified].
    - intros err. apply keeps_bind; [done|]. intros; apply keeps_ret. }
  by apply Hkeeps.
Qed.

(** ** One dispatch that succeeds at once *)

Lemma exchange_answered mk s r r2 b :
  mk (accessToken (obj s)) = Ok r →
  server (clock s) r = Ok r2 →
  ReadAll r2 = Ok b →
  exchange server mk s
  = (Done (Ok b),
     {| obj := obj s; clock := S (clock s);
        trace := EvHTTP r (Ok r2) :: EvLoadToken (accessToken (obj s))
                   :: trace s |}).
Proof.
  intros Hmk Hsrv Hread.
  unfold exchange, load_accessToken, http_Do, io_ReadAll. unfold_monad.
  simpl. rewrite Hmk. simpl. by rewrite Hsrv, Hread.
Qed.

Lemma send_accepted (getResp : M (result bytes)) mk fuel s r r2 b st :
  (∀ s0, getResp s0 = exchange server mk s0) →
  accessToken (obj s) ≠ EmptyString →
  pushLock (obj s) = false →
  initLock (obj s) = false →
  mk (accessToken (obj s)) = Ok r →
  server (clock s) r = Ok r2 →
  ReadAll r2 = Ok b →
  json_Unmarshal_statusResp b = Ok st →
  ErrCode st = 0 →
  send server (S fuel) getResp s
  = (Done (Ok b),
     {| obj := obj s; clock := S (clock s);
        trace := [EvUnlock PushLock; EvLock PushLock; EvHTTP r (Ok r2);
                  EvLoadToken (accessToken (obj s)); EvUnlock InitLock;
                  EvLoadToken (accessToken (obj s)); EvLock InitLock]
                 ++ trace s |}).
Proof.
  intros Hext Htok Hpush Hinit Hmk Hsrv Hread Hdec Hcode.
  pose proof (ensureCredential_ready s Hinit Htok) as Hens.
  pose proof (exchange_answered mk
    (log [EvUnlock InitLock; EvLoadToken (accessToken (obj s));
          EvLock InitLock] s) r r2 b Hmk Hsrv Hread) as Hget.
  rewrite <- Hext in Hget.
  rewrite (send_dispatched _ _ _ _ _ _ Hens Hget).
  by erewrite on_response_success.
Qed.

(** The five entries of the map [Text] serialises. *)
Lemma Text_payload_entries t :
  Text_payload t !! "touser"%string = Some (any_string (Touser t)) ∧
  Text_payload t !! "msgtype"%string = Some (any_string "text") ∧
  Text_payload t !! "agentid"%string = Some (any_int (AgentID t)) ∧
  Text_payload t !! "text"%string
  = Some (any_map_string_string {[ "content"%string := Content t ]}) ∧
  Text_payload t !! "safe"%string = Some (any_string "0") ∧
  dom (Text_payload t)
  = ({[ "touser"; "msgtype"; "agentid"; "text"; "safe" ]} : gset string).
Proof.
  unfold Text_payload, map_literal. simpl.
  repeat split; try by simplify_map_eq.
Qed.

(** The map literal of [File] keeps the media object under the key of the
    media classification unless that key is the later key [safe]. *)
Lemma File_payload_media f media_id :
  FFiletype f ≠ "safe"%string →
  File_payload f media_id !! FFiletype f
  = Some (any_map_string_string
            (map_literal [("media_id", media_id); ("title", FTitle f);
                          ("description", FDescription f)])).
Proof.
  intros Hkey. unfold File_payload. unfold map_literal at 1. simpl.
  rewrite lookup_insert_ne by done. by rewrite lookup_insert_eq.
Qed.

(** The type assertion of [getMediaID], line 243. *)
Lemma getMediaID_result fuel content filetype filename s b s1 m :
  send server fuel (getMediaID_buf server content filetype filename) s
  = (Done (Ok b), s1) →
  json_Unmarshal_map b = Ok m →
  getMediaID server fuel content filetype filename s
  = match map_index m "media_id" with
    | any_string id => (Done (Ok id), s1)
    | _ => (Panic "interface conversion: interface {} is not string", s1)
    end.
Proof.
  intros Hsend Hdec. unfold getMediaID.
  rewrite (bind_Done _ _ _ _ _ Hsend), Hdec. unfold_monad.
  unfold assert_string, panic. by destruct (map_index m _).
Qed.

(** C8, as amended.  When the sender already holds a credential, both
    requests can be built, both responses decode to errcode 0 and the
    upload response carries a string [media_id], [File] returns nil after
    exactly two exchanges: the media upload, then the message send, whose
    body is the serialised map that holds, under the key named after the
    media classification, the object made of the [media_id] the upload
    returned, the title and the description. *)
Theorem File_uploads_then_sends
    fuel f s up r2u bu ru m media_id sd r2s bs rs :
  accessToken (obj s) ≠ EmptyString →
  pushLock (obj s) = false →
  initLock (obj s) = false →
  upload_request (FContent f) (FFiletype f) (FFilename f)
    (accessToken (obj s)) = Ok up →
  server (clock s) up = Ok r2u →
  ReadAll r2u = Ok bu →
  json_Unmarshal_statusResp bu = Ok ru →
  ErrCode ru = 0 →
  json_Unmarshal_map bu = Ok m →
  m !! "media_id"%string = Some (any_string media_id) →
  File_request f media_id (accessToken (obj s)) = Ok sd →
  server (S (clock s)) sd = Ok r2s →
  ReadAll r2s = Ok bs →
  json_Unmarshal_statusResp bs = Ok rs →
  ErrCode rs = 0 →
  FFiletype f ∈ [IMAGE; VOICE; VIDEO; FILE] →
  ∃ s' body,
    File server (S fuel) f s = (Done None, s') ∧
    http_log (trace s') = http_log (trace s) ++ [up; sd] ∧
    URL up = media_upload_url +:+ accessToken (obj s) +:+ "&type="
               +:+ FFiletype f ∧
    URL sd = message_send_url +:+ accessToken (obj s) ∧
    Body sd = Some body ∧
    json_Marshal (any_map_string_any (File_payload f media_id)) = Ok body ∧
    File_payload f media_id !! FFiletype f
    = Some (any_map_string_string
              (map_literal [("media_id", media_id); ("title", FTitle f);
                            ("description", FDescription f)])).
Proof.
  intros Htok Hpush Hinit Hup Hsrv1 Hread1 Hdec1 Hcode1 Hmap Hid Hsd Hsrv2
    Hread2 Hdec2 Hcode2 Hkind.
  destruct (File_request_kind _ _ _ _ Hsd) as (Hurl2 & _ & body & Hbody & Hb).
  destruct (upload_request_kind _ _ _ _ _ Hup) as (Hurl1 & _).
  pose proof (send_accepted _ _ fuel s up r2u bu ru
    (getMediaID_buf_exchange (FContent f) (FFiletype f) (FFilename f))
    Htok Hpush Hinit Hup Hsrv1 Hread1 Hdec1 Hcode1) as Hsend1.
  pose proof (getMediaID_result _ _ _ _ _ _ _ _ Hsend1 Hmap) as Hmedia.
  unfold map_index in Hmedia. rewrite Hid in Hmedia. simpl in Hmedia.
  match type of Hmedia with _ = (_, ?s1) =>
    pose proof (send_accepted _ _ fuel s1 sd r2s bs rs
      (File_buf_exchange f media_id) Htok Hpush Hinit Hsd Hsrv2 Hread2 Hdec2
      Hcode2) as Hsend2
  end.
  eexists _, body. split; [|split; [|repeat split; try done]].
  - unfold File. rewrite (bind_Done _ _ _ _ _ Hmedia).
    by rewrite (bind_Done _ _ _ _ _ Hsend2).
  - simpl. by rewrite <- app_assoc.
  - apply File_payload_media.
    apply list_elem_of_In in Hkind. simpl in Hkind.
    by destruct Hkind as [<-|[<-|[<-|[<-|[]]]]].
Qed.

End WecomFacts.

(** * Further properties *)

Section WecomMore.

Context {platform : Platform}.
Variable server : nat → Request → result Response.

Ltac unfold_monad := unfold mbind, mret, M_bind, M_ret in *.

#[local] Arguments set_held : simpl never.
#[local] Arguments set_accessToken : simpl never.
#[local] Arguments set_isFirstAccessTokenErr : simpl never.

(** ** The mutexes *)

Lemma orderly_ret {A : Type} (a : A) : orderly (mret a).
Proof. intros s Hidle Hco. simpl. naive_solver. Qed.

Lemma orderly_bind {A B : Type} (c : M A) (k : A → M B) :
  orderly c → (∀ a, orderly (k a)) → orderly (c ≫= k).
Proof.
  intros Hc Hk s Hidle Hco.
  destruct (Hc s Hidle Hco) as (Hidle1 & Hco1 & Hid1 & Hsec1 & Hdead & Hpanic).
  unfold_monad. destruct (c s) as [[a| | |] s1]; simpl in *;
    [|naive_solver..].
  destruct (Hk a s1 Hidle1 Hco1) as (? & ? & Hid2 & Hsec2 & ? & ?).
  rewrite Hid2, Hsec2. naive_solver.
Qed.

Ltac open_state :=
  unfold idle, coherent, set_accessToken, set_isFirstAccessTokenErr,
    set_held, with_obj, emit, log in *; simpl in *.

(** [getAccessToken] is called with a mutex held, and gives it back
    held. *)
Lemma getAccessToken_under_mutex s :
  coherent s →
  pushLock (obj s) || initLock (obj s) = true →
  ∃ err s', getAccessToken server s = (Done err, s') ∧ coherent s' ∧
    pushLock (obj s') = pushLock (obj s) ∧
    initLock (obj s') = initLock (obj s) ∧
    corpid (obj s') = corpid (obj s) ∧
    corpsecret (obj s') = corpsecret (obj s).
Proof.
  intros (Hpush & Hinit & Hex) Hheld. rewrite getAccessToken_unfold.
  destruct (token_request (obj s)) as [r|err] eqn:Hreq;
    [|eexists _, _; split; [done|]; by open_state].
  pose proof (token_request_is_token _ _ Hreq) as Hkind. cbv zeta.
  assert (exchanges_locked (EvHTTP r (server (clock s) r) :: trace s) = true)
    as Hstep by (simpl; by rewrite Hkind, Hpush, Hinit, Hheld, Hex).
  destruct (server (clock s) r) as [r2|err];
    [|eexists _, _; split; [done|]; by open_state].
  destruct (ReadAll r2) as [b|err];
    [|eexists _, _; split; [done|]; by open_state].
  destruct (json_Unmarshal_accessResp b) as [a|err];
    [|eexists _, _; split; [done|]; by open_state].
  destruct (negb _); eexists _, _; (split; [done|]); by open_state.
Qed.

Lemma ensureCredential_orderly : orderly (ensureCredential server).
Proof.
  intros s (Hpush & Hinit) (Hph & Hih & Hex).
  unfold ensureCredential. unfold_monad.
  rewrite (Lock_free InitLock) by done. unfold load_accessToken. simpl.
  destruct (String.eqb (accessToken (obj s)) EmptyString).
  - match goal with |- context [getAccessToken server ?s0] =>
      destruct (getAccessToken_under_mutex s0)
        as (err & s1 & -> & (Hph1 & Hih1 & Hex1) & Hp1 & Hi1 & Hc1 & Hs1)
    end.
    { open_state. by rewrite Hph. }
    { open_state. by rewrite orb_true_r. }
    simpl in *. rewrite (Unlock_held InitLock) by done.
    open_state. rewrite Hph1, Hp1, Hex1, Hc1, Hs1. naive_solver.
  - rewrite (Unlock_held InitLock) by done. open_state.
    rewrite Hph, Hpush, Hex. naive_solver.
Qed.

Lemma exchange_orderly mk :
  (∀ tok r, mk tok = Ok r → is_token_request r = false) →
  orderly (exchange server mk).
Proof.
  intros Hmk s (Hpush & Hinit) (Hph & Hih & Hex).
  unfold exchange, load_accessToken, http_Do, io_ReadAll. unfold_monad.
  simpl.
  destruct (mk (accessToken (obj s))) as [r|err] eqn:Hr;
    [|open_state; naive_solver].
  apply Hmk in Hr. simpl.
  destruct (server (clock s) r) as [r2|err];
    [destruct (ReadAll r2) as [b|err]|];
    open_state; rewrite Hr, Hph, Hih, Hpush, Hinit, Hex; naive_solver.
Qed.

Lemma on_response_orderly (again : M (result bytes)) resp :
  orderly again → orderly (on_response server again resp).
Proof.
  intros Hagain s (Hpush & Hinit) (Hph & Hih & Hex).
  unfold on_response.
  destruct (json_Unmarshal_statusResp resp) as [r|err];
    [|open_state; naive_solver].
  unfold_monad. rewrite (Lock_free PushLock) by done.
  destruct (ErrCode r =? 0).
  { rewrite (Unlock_held PushLock) by done. open_state.
    rewrite Hinit, Hih, Hex. naive_solver. }
  destruct (is_credential_error (ErrCode r)) eqn:Hcred; cycle 1.
  { rewrite (Unlock_held PushLock) by done. open_state.
    rewrite Hinit, Hih, Hex. naive_solver. }
  unfold load_isFirstAccessTokenErr. simpl.
  destruct (isFirstAccessTokenErr (obj s)).
  - rewrite diagnose_credential_error by done.
    unfold store_isFirstAccessTokenErr. simpl.
    match goal with |- context [getAccessToken server ?s0] =>
      destruct (getAccessToken_under_mutex s0)
        as (err & s1 & -> & (Hph1 & Hih1 & Hex1) & Hp1 & Hi1 & Hc1 & Hs1)
    end.
    { open_state. by rewrite Hih. }
    { by open_state. }
    simpl in *. rewrite (Unlock_held PushLock) by done.
    match goal with |- context [emit (EvUnlock PushLock) ?s0] =>
      set (s2 := emit (EvUnlock PushLock) s0)
    end.
    assert (idle s2) as Hidle2 by (subst s2; open_state; by rewrite Hi1).
    assert (coherent s2) as Hco2
      by (subst s2; open_state; by rewrite Hih1, Hi1, Hex1).
    assert (corpid (obj s2) = corpid (obj s) ∧
            corpsecret (obj s2) = corpsecret (obj s)) as [Hc2 Hs2]
      by (subst s2; open_state; by rewrite Hc1, Hs1).
    destruct err as [err|]; [simpl; naive_solver|].
    destruct (Hagain s2 Hidle2 Hco2) as (? & ? & Hc3 & Hs3 & ? & ?).
    destruct (again s2) as [[[?|?]| | |] s3]; simpl in *;
      rewrite <- Hc2, <- Hs2; naive_solver.
  - rewrite (Unlock_held PushLock) by done.
    unfold store_isFirstAccessTokenErr.
    match goal with |- context [again ?s0] => set (s2 := s0) end.
    assert (idle s2) as Hidle2 by (subst s2; by open_state).
    assert (coherent s2) as Hco2
      by (subst s2; open_state; by rewrite Hih, Hinit, Hex).
    destruct (Hagain s2 Hidle2 Hco2) as (? & ? & Hc3 & Hs3 & ? & ?).
    destruct (again s2) as [[[?|?]| | |] s3]; simpl in *; naive_solver.
Qed.

Lemma send_orderly mk fuel :
  (∀ tok r, mk tok = Ok r → is_token_request r = false) →
  orderly (send server fuel (exchange server mk)).
Proof.
  intros Hmk. induction fuel as [|fuel IH].
  - intros s Hidle Hco. simpl. naive_solver.
  - simpl. unfold send_body.
    apply orderly_bind; [apply ensureCredential_orderly|].
    intros [err|]; [apply orderly_ret|].
    apply orderly_bind; [by apply exchange_orderly|].
    intros [resp|err]; [|apply orderly_ret].
    by apply on_response_orderly.
Qed.

Lemma send_closure_orderly (getResp : M (result bytes)) mk fuel :
  (∀ s, getResp s = exchange server mk s) →
  (∀ tok r, mk tok = Ok r → is_token_request r = false) →
  orderly (send server fuel getResp).
Proof.
  intros Hext Hmk s. rewrite (send_ext _ _ _ _ _ Hext).
  by apply send_orderly.
Qed.

Lemma run_calls_orderly fuel cs : orderly (run_calls server fuel cs).
Proof.
  induction cs as [|c cs IH]; [apply orderly_ret|].
  apply orderly_bind; [|intros err; apply orderly_bind; [done|];
                         intros; apply orderly_ret].
  destruct c as [t|f]; simpl.
  - apply orderly_bind.
    + apply send_closure_orderly with (mk := Text_request t).
      * apply Text_buf_exchange.
      * intros tok r Hr. by apply Text_request_kind in Hr as [_ ?].
    + intros [?|?]; apply orderly_ret.
  - apply orderly_bind.
    + apply orderly_bind.
      * apply send_closure_orderly
          with (mk := upload_request (FContent f) (FFiletype f) (FFilename f)).
        -- apply getMediaID_buf_exchange.
        -- intros tok r Hr. by apply upload_request_kind in Hr as [_ ?].
      * intros [b|err]; [|apply orderly_ret].
        destruct (json_Unmarshal_map b) as [m|err]; [|apply orderly_ret].
        apply orderly_bind; [|intros; apply orderly_ret].
        intros s Hidle Hco. unfold assert_string, panic.
        destruct (map_index m _); simpl; naive_solver.
    + intros [m|err]; [|apply orderly_ret].
      apply orderly_bind.
      * apply send_closure_orderly with (mk := File_request f m).
        -- apply File_buf_exchange.
        -- intros tok r Hr. by apply File_request_kind in Hr as (_ & ? & _).
      * intros [?|?]; apply orderly_ret.
Qed.


(** In every such sequence the token endpoint is contacted only with a
    mutex held (the initialisation mutex for the first fetch, the push
    mutex for a refresh), and the message and upload endpoints only with
    both mutexes free. *)
Theorem token_exchanges_hold_a_mutex
    fuel (cs : list call) (corpid0 corpsecret0 : string) :
  exchanges_locked
    (trace (run_calls server fuel cs (fresh corpid0 corpsecret0)).2) = true.
Proof.
  destruct (run_calls_orderly fuel cs (fresh corpid0 corpsecret0))
    as (_ & (_ & _ & ?) & _); by repeat split.
Qed.

(** ** Failures that [send] reports without retrying *)

Lemma getAccessToken_rejected s treq r2 b a :
  token_request (obj s) = Ok treq →
  server (clock s) treq = Ok r2 →
  ReadAll r2 = Ok b →
  json_Unmarshal_accessResp b = Ok a →
  Errcode a ≠ 0 →
  getAccessToken server s
  = (Done (Some (errors_New (Errmsg a))),
     {| obj := obj s; clock := S (clock s);
        trace := EvHTTP treq (Ok r2) :: trace s |}).
Proof.
  intros Hreq Hsrv Hread Hdec Hcode. rewrite getAccessToken_unfold.
  rewrite Hreq. cbv zeta. rewrite Hsrv, Hread, Hdec.
  apply Z.eqb_neq in Hcode. by rewrite Hcode.
Qed.

(** A sender without a credential whose token endpoint answers a
    non-zero errcode: [send] returns the message of that answer as its
    error after this one exchange, without calling the closure, and the
    sender still has no credential. *)
Theorem send_reports_rejected_first_fetch
    fuel (getResp : M (result bytes)) s treq r2 b a :
  accessToken (obj s) = EmptyString →
  initLock (obj s) = false →
  token_request (obj s) = Ok treq →
  server (clock s) treq = Ok r2 →
  ReadAll r2 = Ok b →
  json_Unmarshal_accessResp b = Ok a →
  Errcode a ≠ 0 →
  send server (S fuel) getResp s
  = (Done (Err (errors_New (Errmsg a))),
     {| obj := obj s; clock := S (clock s);
        trace := [EvUnlock InitLock; EvHTTP treq (Ok r2);
                  EvLoadToken EmptyString; EvLock InitLock] ++ trace s |}).
Proof.
  intros Htok Hinit Hreq Hsrv Hread Hdec Hcode.
  simpl. unfold send_body, ensureCredential. unfold_monad.
  rewrite (Lock_free InitLock) by done. unfold load_accessToken. simpl.
  rewrite Htok. simpl.
  erewrite getAccessToken_rejected; [|done..].
  rewrite (Unlock_held InitLock) by done.
  unfold emit, with_obj. simpl. do 2 f_equal.
  destruct s as [[] ? ?]. simpl in *. by subst.
Qed.

Lemma exchange_failed mk s r err :
  mk (accessToken (obj s)) = Ok r →
  server (clock s) r = Err err ∨
    (∃ r2, server (clock s) r = Ok r2 ∧ ReadAll r2 = Err err) →
  exchange server mk s
  = (Done (Err err),
     {| obj := obj s; clock := S (clock s);
        trace := EvHTTP r (server (clock s) r)
                   :: EvLoadToken (accessToken (obj s)) :: trace s |}).
Proof.
  intros Hmk Hfail.
  unfold exchange, load_accessToken, http_Do, io_ReadAll. unfold_monad.
  simpl. rewrite Hmk. simpl.
  destruct Hfail as [Hsrv|(r2 & Hsrv & Hread)]; rewrite Hsrv; [done|].
  by rewrite Hread.
Qed.

Lemma send_closure_failed fuel (getResp : M (result bytes)) s s2 err :
  initLock (obj s) = false →
  accessToken (obj s) ≠ EmptyString →
  getResp (log [EvUnlock InitLock; EvLoadToken (accessToken (obj s));
                EvLock InitLock] s) = (Done (Err err), s2) →
  send server (S fuel) getResp s = (Done (Err err), s2).
Proof.
  intros Hinit Htok Hget. simpl. unfold send_body.
  rewrite (bind_Done _ _ _ _ _ (ensureCredential_ready _ s Hinit Htok)).
  by rewrite (bind_Done _ _ _ _ _ Hget).
Qed.

(** When the exchange of the closure fails, in the transport or while
    the body is read, [send] returns that error after this one exchange:
    it does not retry, does not refresh, and does not touch the push
    mutex or the sender. *)
Theorem send_returns_transport_error
    (getResp : M (result bytes)) mk fuel s r err :
  (∀ s0, getResp s0 = exchange server mk s0) →
  accessToken (obj s) ≠ EmptyString →
  initLock (obj s) = false →
  mk (accessToken (obj s)) = Ok r →
  server (clock s) r = Err err ∨
    (∃ r2, server (clock s) r = Ok r2 ∧ ReadAll r2 = Err err) →
  send server (S fuel) getResp s
  = (Done (Err err),
     {| obj := obj s; clock := S (clock s);
        trace := [EvHTTP r (server (clock s) r);
                  EvLoadToken (accessToken (obj s)); EvUnlock InitLock;
                  EvLoadToken (accessToken (obj s)); EvLock InitLock]
                 ++ trace s |}).
Proof.
  intros Hext Htok Hinit Hmk Hfail.
  apply send_closure_failed; [done..|].
  rewrite Hext.
  by rewrite (exchange_failed mk
                (log [EvUnlock InitLock; EvLoadToken (accessToken (obj s));
                      EvLock InitLock] s) r err Hmk Hfail).
Qed.

(** When the request cannot be built from the stored credential, [send]
    returns the error of the closure without any exchange, and without
    refreshing the credential that made the request unbuildable. *)
Theorem send_makes_no_exchange_without_a_request
    (getResp : M (result bytes)) mk fuel s err :
  (∀ s0, getResp s0 = exchange server mk s0) →
  accessToken (obj s) ≠ EmptyString →
  initLock (obj s) = false →
  mk (accessToken (obj s)) = Err err →
  send server (S fuel) getResp s
  = (Done (Err err),
     log [EvLoadToken (accessToken (obj s)); EvUnlock InitLock;
          EvLoadToken (accessToken (obj s)); EvLock InitLock] s).
Proof.
  intros Hext Htok Hinit Hmk.
  apply send_closure_failed; [done..|].
  rewrite Hext. unfold exchange, load_accessToken. unfold_monad. simpl.
  by rewrite Hmk.
Qed.

(** When the body of the response does not decode into the errcode and
    errmsg structure, [send] returns the error of the decoder: the body is
    not handed to the caller, nothing is retried, and the push mutex is
    not taken. *)
Theorem send_returns_decode_error
    fuel (getResp : M (result bytes)) s s1 s2 resp err :
  ensureCredential server s = (Done None, s1) →
  getResp s1 = (Done (Ok resp), s2) →
  json_Unmarshal_statusResp resp = Err err →
  send server (S fuel) getResp s = (Done (Err err), s2).
Proof.
  intros Hens Hget Hdec.
  rewrite (send_dispatched _ _ _ _ _ _ _ Hens Hget).
  unfold on_response. by rewrite Hdec.
Qed.

(** ** The two branches of the recovery *)

Lemma on_response_refresh_failed again resp r s s4 err :
  json_Unmarshal_statusResp resp = Ok r →
  is_credential_error (ErrCode r) = true →
  isFirstAccessTokenErr (obj s) = true →
  pushLock (obj s) = false →
  getAccessToken server
    {| obj := set_isFirstAccessTokenErr false (set_held PushLock true (obj s));
       clock := clock s;
       trace := EvStoreFlag false :: EvPrintln (diagnostic (ErrCode r))
                  :: EvLoadFlag true :: EvLock PushLock :: trace s |}
  = (Done (Some err), s4) →
  on_response server again resp s
  = (Done (Err err),
     emit (EvUnlock PushLock)
       (with_obj (set_held PushLock false (obj s4)) s4)).
Proof.
  intros Hdec Hcred Hfirst Hfree Hfetch. unfold on_response.
  rewrite Hdec, Hcred, (credential_error_nonzero _ Hcred).
  unfold_monad. rewrite (Lock_free PushLock) by done.
  unfold load_isFirstAccessTokenErr. simpl. rewrite Hfirst.
  rewrite diagnose_credential_error by done.
  unfold store_isFirstAccessTokenErr, emit, with_obj. simpl.
  destruct (getAccessToken_frame server
    {| obj := set_isFirstAccessTokenErr false (set_held PushLock true (obj s));
       clock := clock s;
       trace := EvStoreFlag false :: EvPrintln (diagnostic (ErrCode r))
                  :: EvLoadFlag true :: EvLock PushLock :: trace s |})
    as (err' & s4' & Heq & _ & _ & Hpush & _).
  rewrite Hfetch in Heq. injection Heq as <- <-.
  rewrite Hfetch. simpl in Hpush.
  by rewrite (Unlock_held PushLock).
Qed.

(** When the refresh of the recovery is rejected by the token endpoint,
    [send] returns the message of that answer and does not dispatch
    again; the stored credential is the old one, and the flag stays
    cleared, so that the next response with a credential code will be
    retried without a refresh. *)
Theorem send_gives_up_when_the_refresh_is_rejected
    fuel (getResp : M (result bytes)) s s1 s2 resp r treq r2 b a :
  ensureCredential server s = (Done None, s1) →
  getResp s1 = (Done (Ok resp), s2) →
  json_Unmarshal_statusResp resp = Ok r →
  is_credential_error (ErrCode r) = true →
  isFirstAccessTokenErr (obj s2) = true →
  pushLock (obj s2) = false →
  token_request (obj s2) = Ok treq →
  server (clock s2) treq = Ok r2 →
  ReadAll r2 = Ok b →
  json_Unmarshal_accessResp b = Ok a →
  Errcode a ≠ 0 →
  send server (S fuel) getResp s
  = (Done (Err (errors_New (Errmsg a))),
     {| obj := set_isFirstAccessTokenErr false (obj s2);
        clock := S (clock s2);
        trace := [EvUnlock PushLock; EvHTTP treq (Ok r2); EvStoreFlag false;
                  EvPrintln (diagnostic (ErrCode r)); EvLoadFlag true;
                  EvLock PushLock] ++ trace s2 |}).
Proof.
  intros Hens Hget Hdec Hcred Hfirst Hpush Hreq Hsrv Hread Hdeca Hcode.
  rewrite (send_dispatched _ _ _ _ _ _ _ Hens Hget).
  erewrite on_response_refresh_failed; try done; cycle 1.
  { by apply getAccessToken_rejected with (b := b). }
  unfold emit, with_obj. simpl. do 2 f_equal.
  destruct (obj s2). simpl in *. by subst.
Qed.

(** When a response with a credential code finds the flag cleared,
    [send] fetches nothing: it sets the flag again and dispatches the same
    closure once more with the credential it already had. *)
Theorem send_retries_without_refresh
    fuel (getResp : M (result bytes)) s s1 s2 resp r :
  ensureCredential server s = (Done None, s1) →
  getResp s1 = (Done (Ok resp), s2) →
  json_Unmarshal_statusResp resp = Ok r →
  is_credential_error (ErrCode r) = true →
  isFirstAccessTokenErr (obj s2) = false →
  pushLock (obj s2) = false →
  initLock (obj s2) = false →
  accessToken (obj s2) ≠ EmptyString →
  send server (S (S fuel)) getResp s
  = dispatch server (send server fuel getResp) getResp (retried s2)
  ∧ accessToken (obj (retried s2)) = accessToken (obj s2)
  ∧ isFirstAccessTokenErr (obj (retried s2)) = true
  ∧ http_log (trace (retried s2)) = http_log (trace s2).
Proof.
  intros Hens Hget Hdec Hcred Hfirst Hpush Hinit Htok.
  split; [|by repeat split].
  rewrite (send_dispatched _ _ _ _ _ _ _ Hens Hget).
  unfold on_response.
  rewrite Hdec, Hcred, (credential_error_nonzero _ Hcred).
  unfold_monad. rewrite (Lock_free PushLock) by done.
  unfold load_isFirstAccessTokenErr. simpl. rewrite Hfirst.
  rewrite (Unlock_held PushLock) by done.
  unfold store_isFirstAccessTokenErr.
  etransitivity; [apply relay|].
  simpl. unfold send_body.
  erewrite bind_Done; cycle 1.
  { apply ensureCredential_ready; simpl; by destruct (obj s2). }
  unfold dispatch, retried, log, emit, with_obj. simpl.
  replace (set_isFirstAccessTokenErr true
             (set_held PushLock false (set_held PushLock true (obj s2))))
    with (set_isFirstAccessTokenErr true (obj s2)).
  - replace (accessToken
               (set_isFirstAccessTokenErr true (obj s2)))
      with (accessToken (obj s2)) by by destruct (obj s2).
    done.
  - destruct (obj s2). simpl in *. by subst.
Qed.

Lemma send_redispatches_after_refresh
    fuel (getResp : M (result bytes)) s s1 s2 resp r treq r2 b a :
  ensureCredential server s = (Done None, s1) →
  getResp s1 = (Done (Ok resp), s2) →
  json_Unmarshal_statusResp resp = Ok r →
  is_credential_error (ErrCode r) = true →
  isFirstAccessTokenErr (obj s2) = true →
  pushLock (obj s2) = false →
  initLock (obj s2) = false →
  token_request (obj s2) = Ok treq →
  server (clock s2) treq = Ok r2 →
  ReadAll r2 = Ok b →
  json_Unmarshal_accessResp b = Ok a →
  Errcode a = 0 →
  AccessToken a ≠ EmptyString →
  send server (S (S fuel)) getResp s
  = dispatch server (send server fuel getResp) getResp
      (refreshed (ErrCode r) treq r2 (AccessToken a) s2).
Proof.
  intros Hens Hget Hdec Hcred Hfirst Hpush Hinit Hreq Hsrv Hread Hdeca Hcode
    Htok.
  rewrite (send_dispatched _ _ _ _ _ _ _ Hens Hget).
  erewrite on_response_refresh; try done; cycle 1.
  { by apply getAccessToken_granted with (b := b). }
  simpl. unfold send_body.
  erewrite bind_Done; cycle 1.
  { apply ensureCredential_ready; simpl; by destruct (obj s2). }
  unfold dispatch, refreshed, log, emit, with_obj. simpl.
  replace (set_held PushLock false
             (set_accessToken (AccessToken a)
                (set_isFirstAccessTokenErr false
                   (set_held PushLock true (obj s2)))))
    with (set_accessToken (AccessToken a)
            (set_isFirstAccessTokenErr false (obj s2))); [done|].
  destruct (obj s2). simpl in *. by subst.
Qed.

(** The recovery seen from the caller: the first response carries a
    credential code while the flag is set, the token endpoint grants a new
    credential, the resubmitted request is accepted.  [send] returns the
    bytes of the second response after exactly three exchanges: the
    request built from the old credential, the token request, the request
    built from the new credential.  The new credential is stored, and the
    flag stays cleared after the success. *)
Theorem send_recovers_after_one_refresh
    (getResp : M (result bytes)) mk fuel s
    r1 r21 b1 st1 treq r2t bt a r3 r23 b3 st3 :
  (∀ s0, getResp s0 = exchange server mk s0) →
  accessToken (obj s) ≠ EmptyString →
  pushLock (obj s) = false →
  initLock (obj s) = false →
  isFirstAccessTokenErr (obj s) = true →
  mk (accessToken (obj s)) = Ok r1 →
  server (clock s) r1 = Ok r21 →
  ReadAll r21 = Ok b1 →
  json_Unmarshal_statusResp b1 = Ok st1 →
  is_credential_error (ErrCode st1) = true →
  token_request (obj s) = Ok treq →
  server (S (clock s)) treq = Ok r2t →
  ReadAll r2t = Ok bt →
  json_Unmarshal_accessResp bt = Ok a →
  Errcode a = 0 →
  AccessToken a ≠ EmptyString →
  mk (AccessToken a) = Ok r3 →
  server (S (S (clock s))) r3 = Ok r23 →
  ReadAll r23 = Ok b3 →
  json_Unmarshal_statusResp b3 = Ok st3 →
  ErrCode st3 = 0 →
  ∃ s',
    send server (S (S fuel)) getResp s = (Done (Ok b3), s') ∧
    obj s'
    = set_accessToken (AccessToken a)
        (set_isFirstAccessTokenErr false (obj s)) ∧
    http_log (trace s') = http_log (trace s) ++ [r1; treq; r3].
Proof.
  intros Hext Htok Hpush Hinit Hfirst Hmk1 Hsrv1 Hread1 Hdec1 Hcred Hreq Hsrvt
    Hreadt Hdeca Hcode Htok' Hmk3 Hsrv3 Hread3 Hdec3 Hcode3.
  pose proof (ensureCredential_ready server s Hinit Htok) as Hens.
  pose proof (exchange_answered server mk
    (log [EvUnlock InitLock; EvLoadToken (accessToken (obj s));
          EvLock InitLock] s) r1 r21 b1 Hmk1 Hsrv1 Hread1) as Hget.
  rewrite <- Hext in Hget.
  rewrite (send_redispatches_after_refresh fuel getResp s _ _ b1 st1 treq r2t
             bt a Hens Hget Hdec1 Hcred Hfirst Hpush Hinit Hreq Hsrvt Hreadt
             Hdeca Hcode Htok').
  unfold dispatch.
  erewrite bind_Done; cycle 1.
  { rewrite Hext. apply exchange_answered with (r := r3) (r2 := r23);
      [by destruct (obj s)|done..]. }
  cbv beta iota.
  erewrite on_response_success; [|done..].
  eexists. split; [done|]. split; [done|].
  simpl. by rewrite <- !app_assoc.
Qed.

(** ** Calls that succeed at once *)

Lemma ensureCredential_fetches s treq r2 b a :
  accessToken (obj s) = EmptyString →
  initLock (obj s) = false →
  token_request (obj s) = Ok treq →
  server (clock s) treq = Ok r2 →
  ReadAll r2 = Ok b →
  json_Unmarshal_accessResp b = Ok a →
  Errcode a = 0 →
  ensureCredential server s
  = (Done None,
     {| obj := set_accessToken (AccessToken a) (obj s);
        clock := S (clock s);
        trace := [EvUnlock InitLock; EvStoreToken (AccessToken a);
                  EvHTTP treq (Ok r2); EvLoadToken EmptyString;
                  EvLock InitLock] ++ trace s |}).
Proof.
  intros Htok Hinit Hreq Hsrv Hread Hdec Hcode.
  unfold ensureCredential. unfold_monad.
  rewrite (Lock_free InitLock) by done. unfold load_accessToken. simpl.
  rewrite Htok. simpl.
  erewrite getAccessToken_granted; [|done..].
  rewrite (Unlock_held InitLock) by done.
  unfold emit, with_obj. simpl. do 2 f_equal.
  destruct s as [[] ? ?]. simpl in *. by subst.
Qed.

Lemma send_after_first_fetch
    (getResp : M (result bytes)) mk fuel s treq r2t bt a r r2 b st :
  (∀ s0, getResp s0 = exchange server mk s0) →
  accessToken (obj s) = EmptyString →
  pushLock (obj s) = false →
  initLock (obj s) = false →
  token_request (obj s) = Ok treq →
  server (clock s) treq = Ok r2t →
  ReadAll r2t = Ok bt →
  json_Unmarshal_accessResp bt = Ok a →
  Errcode a = 0 →
  mk (AccessToken a) = Ok r →
  server (S (clock s)) r = Ok r2 →
  ReadAll r2 = Ok b →
  json_Unmarshal_statusResp b = Ok st →
  ErrCode st = 0 →
  send server (S fuel) getResp s
  = (Done (Ok b),
     {| obj := set_accessToken (AccessToken a) (obj s);
        clock := S (S (clock s));
        trace := [EvUnlock PushLock; EvLock PushLock; EvHTTP r (Ok r2);
                  EvLoadToken (AccessToken a); EvUnlock InitLock;
                  EvStoreToken (AccessToken a); EvHTTP treq (Ok r2t);
                  EvLoadToken EmptyString; EvLock InitLock] ++ trace s |}).
Proof.
  intros Hext Htok Hpush Hinit Hreq Hsrvt Hreadt Hdeca Hcode Hmk Hsrv Hread
    Hdec Hcode'.
  pose proof (ensureCredential_fetches s treq r2t bt a Htok Hinit Hreq Hsrvt
                Hreadt Hdeca Hcode) as Hens.
  match type of Hens with _ = (_, ?s1) =>
    pose proof (exchange_answered server mk s1 r r2 b Hmk Hsrv Hread) as Hget
  end.
  rewrite <- Hext in Hget.
  rewrite (send_dispatched _ _ _ _ _ _ _ Hens Hget).
  by erewrite on_response_success.
Qed.

(** The first dispatch of a sender without a credential: [send] fetches
    one, stores it, and only then runs the closure, whose request is built
    from the credential just fetched; two exchanges in all. *)
Theorem send_fetches_the_first_credential
    (getResp : M (result bytes)) mk fuel s treq r2t bt a r r2 b st :
  (∀ s0, getResp s0 = exchange server mk s0) →
  accessToken (obj s) = EmptyString →
  pushLock (obj s) = false →
  initLock (obj s) = false →
  token_request (obj s) = Ok treq →
  server (clock s) treq = Ok r2t →
  ReadAll r2t = Ok bt →
  json_Unmarshal_accessResp bt = Ok a →
  Errcode a = 0 →
  mk (AccessToken a) = Ok r →
  server (S (clock s)) r = Ok r2 →
  ReadAll r2 = Ok b →
  json_Unmarshal_statusResp b = Ok st →
  ErrCode st = 0 →
  ∃ s',
    send server (S fuel) getResp s = (Done (Ok b), s') ∧
    obj s' = set_accessToken (AccessToken a) (obj s) ∧
    http_log (trace s') = http_log (trace s) ++ [treq; r].
Proof.
  intros Hext Htok Hpush Hinit Hreq Hsrvt Hreadt Hdeca Hcode Hmk Hsrv Hread
    Hdec Hcode'.
  eexists. split; [by eapply send_after_first_fetch|].
  split; [done|]. simpl. by rewrite <- !app_assoc.
Qed.

(** The credential fetched by the first call serves the second: two
    calls of [Text] on a sender without a credential, both accepted, make
    three exchanges, the token request and the two messages, both built
    from the one credential fetched. *)
Theorem credential_is_fetched_once_for_two_calls
    fuel t1 t2 s treq r2t bt a r1 r21 b1 st1 r2 r22 b2 st2 :
  accessToken (obj s) = EmptyString →
  pushLock (obj s) = false →
  initLock (obj s) = false →
  token_request (obj s) = Ok treq →
  server (clock s) treq = Ok r2t →
  ReadAll r2t = Ok bt →
  json_Unmarshal_accessResp bt = Ok a →
  Errcode a = 0 →
  AccessToken a ≠ EmptyString →
  Text_request t1 (AccessToken a) = Ok r1 →
  server (S (clock s)) r1 = Ok r21 →
  ReadAll r21 = Ok b1 →
  json_Unmarshal_statusResp b1 = Ok st1 →
  ErrCode st1 = 0 →
  Text_request t2 (AccessToken a) = Ok r2 →
  server (S (S (clock s))) r2 = Ok r22 →
  ReadAll r22 = Ok b2 →
  json_Unmarshal_statusResp b2 = Ok st2 →
  ErrCode st2 = 0 →
  ∃ s',
    run_calls server (S fuel) [CallText t1; CallText t2] s
    = (Done [None; None], s') ∧
    accessToken (obj s') = AccessToken a ∧
    http_log (trace s') = http_log (trace s) ++ [treq; r1; r2].
Proof.
  intros Htok Hpush Hinit Hreq Hsrvt Hreadt Hdeca Hcode Htok' Hr1 Hsrv1 Hread1
    Hdec1 Hcode1 Hr2 Hsrv2 Hread2 Hdec2 Hcode2.
  pose proof (send_after_first_fetch _ _ fuel s treq r2t bt a r1 r21 b1 st1
    (Text_buf_exchange server t1) Htok Hpush Hinit Hreq Hsrvt Hreadt Hdeca
    Hcode Hr1 Hsrv1 Hread1 Hdec1 Hcode1) as Hsend1.
  match type of Hsend1 with _ = (_, ?s1) =>
    assert (accessToken (obj s1) ≠ EmptyString) as Htok1
      by (by destruct (obj s));
    assert (pushLock (obj s1) = false) as Hpush1 by (by destruct (obj s));
    assert (initLock (obj s1) = false) as Hinit1 by (by destruct (obj s));
    assert (Text_request t2 (accessToken (obj s1)) = Ok r2) as Hr2'
      by (by destruct (obj s));
    pose proof (send_accepted server _ _ fuel s1 r2 r22 b2 st2
      (Text_buf_exchange server t2) Htok1 Hpush1 Hinit1 Hr2' Hsrv2 Hread2
      Hdec2 Hcode2) as Hsend2
  end.
  pose proof (bind_Done _ (λ r, match r with
                                | Err err => mret (Some err)
                                | Ok _ => mret None
                                end) _ _ _ Hsend1) as Htext1.
  pose proof (bind_Done _ (λ r, match r with
                                | Err err => mret (Some err)
                                | Ok _ => mret None
                                end) _ _ _ Hsend2) as Htext2.
  fold (Text server (S fuel) t1) in Htext1.
  fold (Text server (S fuel) t2) in Htext2.
  pose proof (bind_Done _ (λ err, errs ← mret []; mret (err :: errs))
                _ _ _ Htext2) as Hrest.
  eexists. split.
  { change (run_calls server (S fuel) [CallText t1; CallText t2])
      with (Text server (S fuel) t1 ≫= λ err,
            run_calls server (S fuel) [CallText t2] ≫= λ errs,
            mret (err :: errs)).
    rewrite (bind_Done _ _ _ _ _ Htext1).
    change (run_calls server (S fuel) [CallText t2])
      with (Text server (S fuel) t2 ≫= λ err,
            errs ← mret []; mret (err :: errs)).
    by rewrite (bind_Done _ _ _ _ _ Hrest). }
  split; [by destruct (obj s)|]. simpl. by rewrite <- !app_assoc.
Qed.

Lemma Text_request_shape t tok r :
  Text_request t tok = Ok r →
  Method r = "POST"%string ∧
  URL r = message_send_url +:+ tok ∧
  Header r = [("content-type", "application/json");
              ("accept", "application/json")]%string ∧
  ∃ body, json_Marshal (any_map_string_any (Text_payload t)) = Ok body ∧
          Body r = Some body.
Proof.
  unfold Text_request, http_NewRequest.
  destruct (json_Marshal _) as [b|err]; [|done].
  destruct (url_Parse_ok _); [|done]. intros [= <-]. eauto 10.
Qed.

(** [Text] on a sender that holds a credential, the message accepted:
    it returns nil after a single exchange, a POST to the message
    endpoint whose URL ends with the stored credential as it is, with the
    two JSON headers and the serialised map of the message as its body;
    the sender is unchanged. *)
Theorem Text_sends_one_message fuel t s r r2 b st :
  accessToken (obj s) ≠ EmptyString →
  pushLock (obj s) = false →
  initLock (obj s) = false →
  Text_request t (accessToken (obj s)) = Ok r →
  server (clock s) r = Ok r2 →
  ReadAll r2 = Ok b →
  json_Unmarshal_statusResp b = Ok st →
  ErrCode st = 0 →
  ∃ s' body,
    Text server (S fuel) t s = (Done None, s') ∧
    obj s' = obj s ∧
    http_log (trace s') = http_log (trace s) ++ [r] ∧
    Method r = "POST"%string ∧
    URL r = message_send_url +:+ accessToken (obj s) ∧
    Header r = [("content-type", "application/json");
                ("accept", "application/json")]%string ∧
    Body r = Some body ∧
    json_Marshal (any_map_string_any (Text_payload t)) = Ok body.
Proof.
  intros Htok Hpush Hinit Hreq Hsrv Hread Hdec Hcode.
  destruct (Text_request_shape _ _ _ Hreq)
    as (Hmethod & Hurl & Hheader & body & Hbody & Hb).
  pose proof (send_accepted server _ _ fuel s r r2 b st
    (Text_buf_exchange server t) Htok Hpush Hinit Hreq Hsrv Hread Hdec Hcode)
    as Hsend.
  eexists _, body. split.
  { unfold Text. by rewrite (bind_Done _ _ _ _ _ Hsend). }
  by repeat split.
Qed.

Lemma upload_request_shape content filetype filename tok r :
  upload_request content filetype filename tok = Ok r →
  Method r = "POST"%string ∧
  URL r = media_upload_url +:+ tok +:+ "&type=" +:+ filetype ∧
  ∃ body contentType,
    multipart_FormFile "media" filename content = Ok (body, contentType) ∧
    Header r = [("content-type", contentType);
                ("accept", "application/json")]%string ∧
    Body r = Some body.
Proof.
  unfold upload_request, http_NewRequest.
  destruct (multipart_FormFile _ _ _) as [[b contentType]|err]; [|done].
  destruct (url_Parse_ok _); [|done]. intros [= <-]. eauto 10.
Qed.

(** [getMediaID] on a sender that holds a credential, the upload
    accepted with a string under [media_id]: it returns that string after
    a single exchange, a POST to the upload endpoint whose URL carries the
    stored credential and the file type, and whose body is the multipart
    form of the content under the field [media] with the file name. *)
Theorem getMediaID_uploads_and_returns_the_id
    fuel content filetype filename s up r2 b st m media_id :
  accessToken (obj s) ≠ EmptyString →
  pushLock (obj s) = false →
  initLock (obj s) = false →
  upload_request content filetype filename (accessToken (obj s)) = Ok up →
  server (clock s) up = Ok r2 →
  ReadAll r2 = Ok b →
  json_Unmarshal_statusResp b = Ok st →
  ErrCode st = 0 →
  json_Unmarshal_map b = Ok m →
  m !! "media_id"%string = Some (any_string media_id) →
  ∃ s' body contentType,
    getMediaID server (S fuel) content filetype filename s
    = (Done (Ok media_id), s') ∧
    obj s' = obj s ∧
    http_log (trace s') = http_log (trace s) ++ [up] ∧
    URL up = media_upload_url +:+ accessToken (obj s) +:+ "&type="
               +:+ filetype ∧
    multipart_FormFile "media" filename content = Ok (body, contentType) ∧
    Header up = [("content-type", contentType);
                 ("accept", "application/json")]%string ∧
    Body up = Some body.
Proof.
  intros Htok Hpush Hinit Hup Hsrv Hread Hdec Hcode Hmap Hid.
  destruct (upload_request_shape _ _ _ _ _ Hup)
    as (_ & Hurl & body & contentType & Hform & Hheader & Hbody).
  pose proof (send_accepted server _ _ fuel s up r2 b st
    (getMediaID_buf_exchange server content filetype filename)
    Htok Hpush Hinit Hup Hsrv Hread Hdec Hcode) as Hsend.
  pose proof (getMediaID_result server _ _ _ _ _ _ _ _ Hsend Hmap) as Hres.
  unfold map_index in Hres. rewrite Hid in Hres. simpl in Hres.
  eexists _, body, contentType. split; [exact Hres|]. by repeat split.
Qed.

Lemma send_rejected (getResp : M (result bytes)) mk fuel s r r2 b st :
  (∀ s0, getResp s0 = exchange server mk s0) →
  accessToken (obj s) ≠ EmptyString →
  pushLock (obj s) = false →
  initLock (obj s) = false →
  mk (accessToken (obj s)) = Ok r →
  server (clock s) r = Ok r2 →
  ReadAll r2 = Ok b →
  json_Unmarshal_statusResp b = Ok st →
  ErrCode st ≠ 0 →
  is_credential_error (ErrCode st) = false →
  send server (S fuel) getResp s
  = (Done (Err (errors_New (ErrMsg st))),
     {| obj := obj s; clock := S (clock s);
        trace := [EvUnlock PushLock; EvLock PushLock; EvHTTP r (Ok r2);
                  EvLoadToken (accessToken (obj s)); EvUnlock InitLock;
                  EvLoadToken (accessToken (obj s)); EvLock InitLock]
                 ++ trace s |}).
Proof.
  intros Hext Htok Hpush Hinit Hmk Hsrv Hread Hdec Hcode Hcred.
  pose proof (ensureCredential_ready server s Hinit Htok) as Hens.
  pose proof (exchange_answered server mk
    (log [EvUnlock InitLock; EvLoadToken (accessToken (obj s));
          EvLock InitLock] s) r r2 b Hmk Hsrv Hread) as Hget.
  rewrite <- Hext in Hget.
  rewrite (send_dispatched _ _ _ _ _ _ _ Hens Hget).
  by erewrite on_response_other_code.
Qed.

(** When the provider rejects the upload, [File] returns the message of
    the rejection and sends no message: the upload is the only
    exchange. *)
Theorem File_sends_nothing_after_a_rejected_upload
    fuel f s up r2 b st :
  accessToken (obj s) ≠ EmptyString →
  pushLock (obj s) = false →
  initLock (obj s) = false →
  upload_request (FContent f) (FFiletype f) (FFilename f)
    (accessToken (obj s)) = Ok up →
  server (clock s) up = Ok r2 →
  ReadAll r2 = Ok b →
  json_Unmarshal_statusResp b = Ok st →
  ErrCode st ≠ 0 →
  is_credential_error (ErrCode st) = false →
  ∃ s',
    File server (S fuel) f s = (Done (Some (errors_New (ErrMsg st))), s') ∧
    obj s' = obj s ∧
    http_log (trace s') = http_log (trace s) ++ [up].
Proof.
  intros Htok Hpush Hinit Hup Hsrv Hread Hdec Hcode Hcred.
  pose proof (send_rejected _ _ fuel s up r2 b st
    (getMediaID_buf_exchange server (FContent f) (FFiletype f) (FFilename f))
    Htok Hpush Hinit Hup Hsrv Hread Hdec Hcode Hcred) as Hsend.
  match type of Hsend with _ = (_, ?s1) =>
    assert (getMediaID server (S fuel) (FContent f) (FFiletype f)
              (FFilename f) s
            = (Done (Err (errors_New (ErrMsg st))), s1)) as Hmedia
      by (unfold getMediaID; by rewrite (bind_Done _ _ _ _ _ Hsend))
  end.
  eexists. split.
  { unfold File. by rewrite (bind_Done _ _ _ _ _ Hmedia). }
  by split.
Qed.

(** ** The map [File] serialises *)

(** The map of [File] has no other keys than [touser], [msgtype],
    [agentid], [safe] and the file type; for the four file types of the
    package these are five entries: the recipient, the file type as
    message type, the agent, the number 0, and under the file type the
    object of media id, title and description. *)
Theorem File_payload_entries f media_id :
  FFiletype f ∈ [IMAGE; VOICE; VIDEO; FILE] →
  dom (File_payload f media_id)
  = ({[ "touser"; "msgtype"; "agentid"; FFiletype f; "safe" ]}%string
     : gset string) ∧
  File_payload f media_id !! "touser"%string = Some (any_string (FTouser f)) ∧
  File_payload f media_id !! "msgtype"%string
  = Some (any_Filetype (FFiletype f)) ∧
  File_payload f media_id !! "agentid"%string = Some (any_int (FAgentID f)) ∧
  File_payload f media_id !! "safe"%string = Some (any_int 0) ∧
  File_payload f media_id !! FFiletype f
  = Some (any_map_string_string
            {[ "media_id"%string := media_id; "title"%string := FTitle f;
               "description"%string := FDescription f ]}).
Proof.
  intros Hkind. split.
  { unfold File_payload, map_literal. simpl.
    rewrite !dom_insert_L, dom_empty_L. apply set_eq. intros k.
    rewrite !elem_of_union, !elem_of_singleton, elem_of_empty. tauto. }
  apply list_elem_of_In in Hkind. simpl in Hkind.
  unfold File_payload, map_literal.
  destruct Hkind as [<-|[<-|[<-|[<-|[]]]]]; simpl;
    repeat split; by simplify_map_eq.
Qed.

(** [Filetype] is a string type, and a value that coincides with one of
    the fixed keys makes the map literal lose an entry: the map then has
    the four fixed keys only, so that either the media object or the
    fixed member of that name is missing from the message.  (Which of the
    two stays under the key depends on the order of the two stores and is
    left open here.) *)
Theorem File_payload_loses_an_entry_on_a_key_clash f media_id :
  FFiletype f ∈ ["touser"; "msgtype"; "agentid"; "safe"]%string →
  dom (File_payload f media_id)
  = ({[ "touser"; "msgtype"; "agentid"; "safe" ]}%string : gset string).
Proof.
  intros Hkind. apply list_elem_of_In in Hkind. simpl in Hkind.
  unfold File_payload, map_literal.
  destruct Hkind as [<-|[<-|[<-|[<-|[]]]]]; simpl;
    rewrite !dom_insert_L, dom_empty_L; apply set_eq; intros k;
    rewrite !elem_of_union, !elem_of_singleton, elem_of_empty; tauto.
Qed.

(** ** A provider that never accepts the credential *)

(** When the provider answers every request of a dispatch with one of the
    codes 42001, 40014, 41001 and the token endpoint grants a credential
    whenever it is asked, [send] never returns: whatever the depth allowed
    to its recursion, it is still calling itself at that depth. *)
Theorem send_never_returns_while_the_credential_is_rejected
    (getResp : M (result bytes)) mk treq :
  (∀ s, getResp s = exchange server mk s) →
  (∀ k r, is_token_request r = true →
     ∃ r2 b a, server k r = Ok r2 ∧ ReadAll r2 = Ok b ∧
               json_Unmarshal_accessResp b = Ok a ∧ Errcode a = 0 ∧
               usable mk (AccessToken a)) →
  (∀ k r, is_token_request r = false →
     ∃ r2 b st, server k r = Ok r2 ∧ ReadAll r2 = Ok b ∧
                json_Unmarshal_statusResp b = Ok st ∧
                is_credential_error (ErrCode st) = true) →
  ∀ fuel s,
    at_rest treq s → can_build mk s →
    (send server fuel getResp s).1 = OutOfFuel.
Proof.
  intros Hext Hgrant Hreject fuel.
  induction fuel as [|fuel IH]; intros s Hs Hbuild; [done|].
  set (horizon := (clock s + 3)%nat).
  assert (∀ k r, (k < horizon)%nat → is_token_request r = true →
            ∃ r2 b a, server k r = Ok r2 ∧ ReadAll r2 = Ok b ∧
              json_Unmarshal_accessResp b = Ok a ∧ Errcode a = 0 ∧
              usable mk (AccessToken a)) as Hgrant'
    by (intros k r _; apply Hgrant).
  assert (∀ k r, (k < horizon)%nat → is_token_request r = false →
            ∃ r2 b st, server k r = Ok r2 ∧ ReadAll r2 = Ok b ∧
              json_Unmarshal_statusResp b = Ok st ∧
              is_credential_error (ErrCode st) = true) as Hreject'
    by (intros k r _; apply Hreject).
  destruct (ensureCredential_at_rest server mk treq horizon Hgrant' s Hs Hbuild
              ltac:(subst horizon; lia))
    as (s1 & Hens & Hs1 & Huse1 & Hclock1 & _).
  destruct (exchange_rejected server getResp mk treq horizon Hext Hreject' s1
              Hs1 Huse1 ltac:(subst horizon; lia))
    as (s2 & b & st & Hget & Hdec & Hcred & Hs2 & Htok2 & Hclock2 & _).
  rewrite <- Htok2 in Huse1.
  destruct (on_response_rejected server mk treq horizon Hgrant' b st s2 Hdec
              Hcred Hs2 Huse1 ltac:(subst horizon; lia))
    as (s3 & Hresp & Hs3 & Huse3 & _).
  rewrite (send_dispatched _ _ _ _ _ _ _ Hens Hget), Hresp.
  apply IH; [done|by right].
Qed.

End WecomMore.

(** * The model at concrete inputs *)

Import Demo.

(** Closed equations are settled by evaluation in the virtual machine. *)
Ltac by_vm :=
  lazymatch goal with
  | |- ?a = ?b => vm_cast_no_check (@eq_refl _ b)
  end.

(** C1.  An upload the provider accepts with a body that has no
    [media_id], or one that is not a string: [getMediaID] does not return an
    error, the type assertion of line 243 panics. *)
Theorem getMediaID_panics_without_string_media_id :
  (getMediaID (scripted [status_reply 0 "ok"]) 1
     (wire_text "hello") FILE "test.txt" (holding "T0")).1
  = Panic "interface conversion: interface {} is not string"
  ∧ (getMediaID (scripted [media_reply (any_float64 3)]) 1
       (wire_text "hello") FILE "test.txt" (holding "T0")).1
    = Panic "interface conversion: interface {} is not string".
Proof. split; vm_compute; reflexivity. Qed.

(** With a string [media_id] the same call returns it. *)
Example getMediaID_returns_media_id :
  (getMediaID (scripted [media_reply (any_string "M1")]) 1
     (wire_text "hello") FILE "test.txt" (holding "T0")).1
  = Done (Ok "M1"%string).
Proof. vm_compute; reflexivity. Qed.

(** C2 does not hold as stated: two rejections that differ in the code
    alone give [send] the same error to return, so no reading of the
    returned error yields the provider's code. *)
Lemma send_error_does_not_carry_code :
  ¬ ∃ code_of : error → Z,
      ∀ code : Z,
        code ≠ 0 → is_credential_error code = false →
        ∃ err s',
          send (scripted [status_reply code "denied"]) 1
            (Text_buf (scripted [status_reply code "denied"]) pony)
            (holding "T0")
          = (Done (Err err), s') ∧ code_of err = code.
Proof.
  intros (code_of & H).
  destruct (H 40003 ltac:(done) eq_refl) as (e1 & s1 & Hrun1 & Hcode1).
  destruct (H 60020 ltac:(done) eq_refl) as (e2 & s2 & Hrun2 & Hcode2).
  assert ((send (scripted [status_reply 40003 "denied"]) 1
             (Text_buf (scripted [status_reply 40003 "denied"]) pony)
             (holding "T0")).1
          = Done (Err (errors_New "denied"))) as R1
    by (vm_compute; reflexivity).
  assert ((send (scripted [status_reply 60020 "denied"]) 1
             (Text_buf (scripted [status_reply 60020 "denied"]) pony)
             (holding "T0")).1
          = Done (Err (errors_New "denied"))) as R2
    by (vm_compute; reflexivity).
  rewrite Hrun1 in R1. rewrite Hrun2 in R2. simpl in R1, R2. congruence.
Qed.

(** A rejection with the code 40003. *)
Lemma send_other_code_returns_message_witness :
  send denied 1 (Text_buf denied pony) (holding "T0")
  = (Done (Err (errors_New "denied")),
     log [EvUnlock PushLock; EvLock PushLock]
       (Text_buf denied pony (ensureCredential denied (holding "T0")).2).2).
Proof.
  refine (send_other_code_returns_message denied 0 (Text_buf denied pony)
            (holding "T0") (ensureCredential denied (holding "T0")).2 _
            (status_body 40003 "denied")
            {| ErrCode := 40003; ErrMsg := "denied" |} _ _ _ _ _ _);
    try by_vm.
  vm_compute. discriminate.
Defined.

(** A request the provider accepts. *)
Lemma send_success_returns_bytes_witness :
  send accepting 1 (Text_buf accepting pony) (holding "T0")
  = (Done (Ok (status_body 0 "ok")),
     log [EvUnlock PushLock; EvLock PushLock]
       (Text_buf accepting pony
          (ensureCredential accepting (holding "T0")).2).2).
Proof.
  refine (send_success_returns_bytes accepting 0 (Text_buf accepting pony)
            (holding "T0") (ensureCredential accepting (holding "T0")).2 _
            (status_body 0 "ok") {| ErrCode := 0; ErrMsg := "ok" |}
            _ _ _ _ _);
    by_vm.
Defined.

(** C3 does not hold as stated: the first response carries 42001 while
    the flag is set, the token endpoint answers errcode 0 with an empty
    token, and the second dispatch, finding no credential, fetches again
    before it resubmits: two contacts of the token endpoint, not one. *)
Lemma refresh_with_empty_token_fetches_again :
  isFirstAccessTokenErr (obj (first_response empty_grant)) = true
  ∧ (Text empty_grant 3 pony (holding "T0")).1 = Done None
  ∧ is_token_request
      <$> http_log (trace (Text empty_grant 3 pony (holding "T0")).2)
    = [false; true; true; false]
  ∧ token_fetches (trace (Text empty_grant 3 pony (holding "T0")).2) ≠ 1%nat.
Proof.
  repeat split; try by_vm.
  assert (token_fetches (trace (Text empty_grant 3 pony (holding "T0")).2)
          = 2%nat) as -> by by_vm.
  done.
Qed.

(** The request resubmitted after the refresh carries the new
    credential. *)
Example resubmitted_request_carries_new_credential :
  (Text expired 3 pony (holding "T0")).1 = Done None
  ∧ http_log (trace (Text expired 3 pony (holding "T0")).2)
    = [pony_message "T0"; corp_token_request; pony_message "T1"].
Proof. split; by_vm. Qed.

(** An expired credential, refreshed once. *)
Lemma send_refreshes_once_and_redispatches_witness :
  send expired 3 (Text_buf expired pony) (holding "T0")
  = dispatch expired (send expired 1 (Text_buf expired pony))
      (Text_buf expired pony)
      (refreshed 42001 corp_token_request
         (carrying (token_body "T1")) "T1" (first_response expired))
  ∧ accessToken
      (obj (refreshed 42001 corp_token_request
              (carrying (token_body "T1")) "T1"
              (first_response expired)))
    = "T1"%string
  ∧ token_fetches
      (trace (refreshed 42001 corp_token_request
                (carrying (token_body "T1")) "T1"
                (first_response expired)))
    = S (token_fetches (trace (first_response expired))).
Proof.
  refine (send_refreshes_once_and_redispatches expired 1
            (Text_buf expired pony) (holding "T0")
            (ensureCredential expired (holding "T0")).2
            (first_response expired) (status_body 42001 "expired")
            {| ErrCode := 42001; ErrMsg := "expired" |}
            corp_token_request (carrying (token_body "T1"))
            (token_body "T1")
            {| Errcode := 0; Errmsg := "ok"; AccessToken := "T1";
               ExpiresIn := 7200 |}
            _ _ _ _ _ _ _ _ _ _ _ _ _);
    try by_vm.
  vm_compute. discriminate.
Defined.


(** What four such passes look like: the flag goes false, true, false,
    true, and of the four attempts the first and the third are followed by
    a refresh. *)
Example four_rejected_passes :
  flag_stores (trace (send rejecting 4 (Text_buf rejecting pony)
                        (holding "T0")).2)
  = [false; true; false; true]
  ∧ attempts_and_refreshes
      (trace (send rejecting 4 (Text_buf rejecting pony) (holding "T0")).2)
    = [false; true; false; false; true; false].
Proof. split; by_vm. Qed.

(** C5.  The body [Text] sends for the call of the README is the
    serialised map of lines 153-161, and that map holds under [safe] the
    string ["0"], not the number 0 that [File] stores under the same key. *)
Theorem Text_sends_safe_as_a_string :
  Body <$> http_log (trace (Text accepting 1 pony (holding "T0")).2)
  = [Some (wire_json (any_map_string_any (Text_payload pony)))]
  ∧ Text_payload pony !! "safe"%string = Some (any_string "0")
  ∧ Text_payload pony !! "safe"%string ≠ Some (any_int 0)
  ∧ File_payload pony_file "M1" !! "safe"%string = Some (any_int 0).
Proof.
  assert (Text_payload pony !! "safe"%string = Some (any_string "0")) as Hsafe
    by by_vm.
  repeat split; try by_vm. by rewrite Hsafe.
Qed.

(** C6 does not hold as stated: on a fresh sender whose token endpoint
    rejects the identity pair, two calls of [Text] contact the token
    endpoint twice, and no request has been accepted yet. *)
Lemma failed_fetch_is_repeated :
  (run_calls invalid_corp 1 [CallText pony; CallText pony]
     (fresh "corp" "secret")).1
  = Done [Some (errors_New "invalid corpid");
          Some (errors_New "invalid corpid")]
  ∧ is_token_request
      <$> http_log
            (trace (run_calls invalid_corp 1 [CallText pony; CallText pony]
                      (fresh "corp" "secret")).2)
    = [true; true].
Proof. split; by_vm. Qed.

(** A history in which the token endpoint is contacted out of the blue
    is not accepted. *)
Example unjustified_fetch_is_rejected :
  fetches_justified
    [EvHTTP corp_token_request (token_reply "T1"); EvLoadToken "T0";
     EvLock InitLock]
  = false.
Proof. by_vm. Qed.

(** C8 does not hold as stated: on a fresh sender the happy path of
    [File] makes three exchanges, the fetch of the credential before the
    upload and the send. *)
Lemma File_on_fresh_sender_makes_three_calls :
  (File uploading_fresh 1 pony_file (fresh "corp" "secret")).1 = Done None
  ∧ http_log
      (trace (File uploading_fresh 1 pony_file (fresh "corp" "secret")).2)
    = [corp_token_request; pony_upload "T1"; pony_file_message "M1" "T1"].
Proof. split; by_vm. Qed.

(** The file of the README, sent by a sender that holds a credential. *)
Lemma File_uploads_then_sends_witness :
  ∃ s' body,
    File uploading 1 pony_file (holding "T0") = (Done None, s') ∧
    http_log (trace s')
    = http_log (trace (holding "T0"))
        ++ [pony_upload "T0"; pony_file_message "M1" "T0"] ∧
    URL (pony_upload "T0")
    = media_upload_url +:+ accessToken (obj (holding "T0")) +:+ "&type="
        +:+ FFiletype pony_file ∧
    URL (pony_file_message "M1" "T0")
    = message_send_url +:+ accessToken (obj (holding "T0")) ∧
    Body (pony_file_message "M1" "T0") = Some body ∧
    json_Marshal (any_map_string_any (File_payload pony_file "M1"))
    = Ok body ∧
    File_payload pony_file "M1" !! FFiletype pony_file
    = Some (any_map_string_string
              (map_literal [("media_id", "M1"%string);
                            ("title", FTitle pony_file);
                            ("description", FDescription pony_file)])).
Proof.
  refine (File_uploads_then_sends uploading 0 pony_file (holding "T0")
            (pony_upload "T0")
            (carrying (media_body (any_string "M1")))
            (media_body (any_string "M1"))
            {| ErrCode := 0; ErrMsg := "ok" |}
            (map_literal [("errcode", any_float64 0);
                          ("errmsg", any_string "ok");
                          ("type", any_string "file");
                          ("media_id", any_string "M1")])
            "M1" (pony_file_message "M1" "T0")
            (carrying (status_body 0 "ok"))
            (status_body 0 "ok") {| ErrCode := 0; ErrMsg := "ok" |}
            _ _ _ _ _ _ _ _ _ _ _ _ _ _ _ _);
    try by_vm.
  - vm_compute. discriminate.
  - apply list_elem_of_In. vm_compute. tauto.
Defined.

(** C9.  Two credential errors in a row: on the second pass [send]
    releases the push mutex on line 129 and writes the flag on line 130, so
    the history holds a write of the flag made without the mutex.  A single
    credential error takes only the branch that writes under the mutex. *)
Theorem flag_is_written_after_the_unlock :
  (Text twice_expired 3 pony (holding "T0")).1 = Done None
  ∧ push_and_flag_events (trace (Text twice_expired 3 pony (holding "T0")).2)
    = [EvLock PushLock; EvLoadFlag true; EvStoreFlag false;
       EvUnlock PushLock;
       EvLock PushLock; EvLoadFlag false; EvUnlock PushLock;
       EvStoreFlag true;
       EvLock PushLock; EvUnlock PushLock]
  ∧ flag_accesses_guarded (trace (Text twice_expired 3 pony (holding "T0")).2)
    = false
  ∧ flag_accesses_guarded (trace (Text expired 3 pony (holding "T0")).2)
    = true.
Proof. repeat split; by_vm. Qed.

(** * The further properties at concrete inputs *)

(** A token request made with no mutex held is told apart by
    [exchanges_locked]. *)
Example exchanges_locked_rejects_a_bare_token_request :
  exchanges_locked
    [EvHTTP corp_token_request (reply (token_body "T1"))] = false
  ∧ exchanges_locked
      [EvHTTP (pony_message "T0") (reply (status_body 0 "ok"));
       EvLock PushLock] = false.
Proof. split; by_vm. Qed.

Lemma send_reports_rejected_first_fetch_witness :
  send invalid_corp 1 (Text_buf invalid_corp pony) (fresh "corp" "secret")
  = (Done (Err (errors_New "invalid corpid")),
     {| obj := obj (fresh "corp" "secret");
        clock := S (clock (fresh "corp" "secret"));
        trace := [EvUnlock InitLock;
                  EvHTTP corp_token_request
                    (Ok (carrying (status_body 40013 "invalid corpid")));
                  EvLoadToken EmptyString; EvLock InitLock]
                 ++ trace (fresh "corp" "secret") |}).
Proof.
  refine (send_reports_rejected_first_fetch invalid_corp 0
            (Text_buf invalid_corp pony) (fresh "corp" "secret")
            corp_token_request
            (carrying (status_body 40013 "invalid corpid"))
            (status_body 40013 "invalid corpid")
            {| Errcode := 40013; Errmsg := "invalid corpid";
               AccessToken := EmptyString; ExpiresIn := 0 |}
            _ _ _ _ _ _ _);
    try by_vm.
  vm_compute. discriminate.
Defined.

Lemma send_returns_transport_error_witness :
  send unreachable 1 (Text_buf unreachable pony) (holding "T0")
  = (Done (Err (lib_error "net/http" "connection refused")),
     {| obj := obj (holding "T0"); clock := S (clock (holding "T0"));
        trace := [EvHTTP (pony_message "T0")
                    (unreachable (clock (holding "T0")) (pony_message "T0"));
                  EvLoadToken (accessToken (obj (holding "T0")));
                  EvUnlock InitLock;
                  EvLoadToken (accessToken (obj (holding "T0")));
                  EvLock InitLock]
                 ++ trace (holding "T0") |}).
Proof.
  refine (send_returns_transport_error unreachable
            (Text_buf unreachable pony) (Text_request pony) 0 (holding "T0")
            (pony_message "T0")
            (lib_error "net/http" "connection refused") _ _ _ _ _).
  - apply Text_buf_exchange.
  - vm_compute. discriminate.
  - by_vm.
  - by_vm.
  - left. by_vm.
Defined.

Lemma send_makes_no_exchange_without_a_request_witness :
  send accepting 1 (Text_buf accepting pony) (holding broken_token)
  = (Done (Err (lib_error "net/url" (message_send_url +:+ broken_token))),
     log [EvLoadToken (accessToken (obj (holding broken_token)));
          EvUnlock InitLock;
          EvLoadToken (accessToken (obj (holding broken_token)));
          EvLock InitLock] (holding broken_token)).
Proof.
  refine (send_makes_no_exchange_without_a_request accepting
            (Text_buf accepting pony) (Text_request pony) 0
            (holding broken_token)
            (lib_error "net/url" (message_send_url +:+ broken_token))
            _ _ _ _).
  - apply Text_buf_exchange.
  - vm_compute. discriminate.
  - by_vm.
  - by_vm.
Defined.

Lemma send_returns_decode_error_witness :
  send garbled 1 (Text_buf garbled pony) (holding "T0")
  = (Done (Err (lib_error "encoding/json" "invalid character")),
     first_response garbled).
Proof.
  refine (send_returns_decode_error garbled 0 (Text_buf garbled pony)
            (holding "T0") (ensureCredential garbled (holding "T0")).2
            (first_response garbled) (wire_text "<html>")
            (lib_error "encoding/json" "invalid character") _ _ _);
    by_vm.
Defined.

Lemma send_gives_up_when_the_refresh_is_rejected_witness :
  send refresh_refused 1 (Text_buf refresh_refused pony) (holding "T0")
  = (Done (Err (errors_New "invalid corpid")),
     {| obj := set_isFirstAccessTokenErr false
                 (obj (first_response refresh_refused));
        clock := S (clock (first_response refresh_refused));
        trace := [EvUnlock PushLock;
                  EvHTTP corp_token_request
                    (Ok (carrying (status_body 40013 "invalid corpid")));
                  EvStoreFlag false; EvPrintln (diagnostic 42001);
                  EvLoadFlag true; EvLock PushLock]
                 ++ trace (first_response refresh_refused) |}).
Proof.
  refine (send_gives_up_when_the_refresh_is_rejected refresh_refused 0
            (Text_buf refresh_refused pony) (holding "T0")
            (ensureCredential refresh_refused (holding "T0")).2
            (first_response refresh_refused) (status_body 42001 "expired")
            {| ErrCode := 42001; ErrMsg := "expired" |}
            corp_token_request
            (carrying (status_body 40013 "invalid corpid"))
            (status_body 40013 "invalid corpid")
            {| Errcode := 40013; Errmsg := "invalid corpid";
               AccessToken := EmptyString; ExpiresIn := 0 |}
            _ _ _ _ _ _ _ _ _ _ _);
    try by_vm.
  vm_compute. discriminate.
Defined.

Lemma send_retries_without_refresh_witness :
  send expired_then_accepted 2 (Text_buf expired_then_accepted pony)
    (recovered "T0")
  = dispatch expired_then_accepted
      (send expired_then_accepted 0 (Text_buf expired_then_accepted pony))
      (Text_buf expired_then_accepted pony)
      (retried
         (Text_buf expired_then_accepted pony
            (ensureCredential expired_then_accepted (recovered "T0")).2).2)
  ∧ accessToken
      (obj (retried
              (Text_buf expired_then_accepted pony
                 (ensureCredential expired_then_accepted
                    (recovered "T0")).2).2))
    = accessToken
        (obj (Text_buf expired_then_accepted pony
                (ensureCredential expired_then_accepted
                   (recovered "T0")).2).2)
  ∧ isFirstAccessTokenErr
      (obj (retried
              (Text_buf expired_then_accepted pony
                 (ensureCredential expired_then_accepted
                    (recovered "T0")).2).2))
    = true
  ∧ http_log
      (trace (retried
                (Text_buf expired_then_accepted pony
                   (ensureCredential expired_then_accepted
                      (recovered "T0")).2).2))
    = http_log
        (trace (Text_buf expired_then_accepted pony
                  (ensureCredential expired_then_accepted
                     (recovered "T0")).2).2).
Proof.
  refine (send_retries_without_refresh expired_then_accepted 0
            (Text_buf expired_then_accepted pony) (recovered "T0")
            (ensureCredential expired_then_accepted (recovered "T0")).2
            (Text_buf expired_then_accepted pony
               (ensureCredential expired_then_accepted (recovered "T0")).2).2
            (status_body 42001 "expired")
            {| ErrCode := 42001; ErrMsg := "expired" |}
            _ _ _ _ _ _ _ _);
    try by_vm.
  vm_compute. discriminate.
Defined.

Lemma send_recovers_after_one_refresh_witness :
  ∃ s',
    send expired 2 (Text_buf expired pony) (holding "T0")
    = (Done (Ok (status_body 0 "ok")), s') ∧
    obj s'
    = set_accessToken "T1"
        (set_isFirstAccessTokenErr false (obj (holding "T0"))) ∧
    http_log (trace s')
    = http_log (trace (holding "T0"))
        ++ [pony_message "T0"; corp_token_request; pony_message "T1"].
Proof.
  refine (send_recovers_after_one_refresh expired (Text_buf expired pony)
            (Text_request pony) 0 (holding "T0")
            (pony_message "T0") (carrying (status_body 42001 "expired"))
            (status_body 42001 "expired")
            {| ErrCode := 42001; ErrMsg := "expired" |}
            corp_token_request (carrying (token_body "T1"))
            (token_body "T1")
            {| Errcode := 0; Errmsg := "ok"; AccessToken := "T1";
               ExpiresIn := 7200 |}
            (pony_message "T1") (carrying (status_body 0 "ok"))
            (status_body 0 "ok") {| ErrCode := 0; ErrMsg := "ok" |}
            _ _ _ _ _ _ _ _ _ _ _ _ _ _ _ _ _ _ _ _ _);
    try by_vm.
  - apply Text_buf_exchange.
  - vm_compute. discriminate.
  - vm_compute. discriminate.
Defined.

Lemma send_fetches_the_first_credential_witness :
  ∃ s',
    send granting 1 (Text_buf granting pony) (fresh "corp" "secret")
    = (Done (Ok (status_body 0 "ok")), s') ∧
    obj s' = set_accessToken "T1" (obj (fresh "corp" "secret")) ∧
    http_log (trace s')
    = http_log (trace (fresh "corp" "secret"))
        ++ [corp_token_request; pony_message "T1"].
Proof.
  refine (send_fetches_the_first_credential granting
            (Text_buf granting pony) (Text_request pony) 0
            (fresh "corp" "secret") corp_token_request
            (carrying (token_body "T1")) (token_body "T1")
            {| Errcode := 0; Errmsg := "ok"; AccessToken := "T1";
               ExpiresIn := 7200 |}
            (pony_message "T1") (carrying (status_body 0 "ok"))
            (status_body 0 "ok") {| ErrCode := 0; ErrMsg := "ok" |}
            _ _ _ _ _ _ _ _ _ _ _ _ _ _);
    try by_vm.
  apply Text_buf_exchange.
Defined.

Lemma credential_is_fetched_once_for_two_calls_witness :
  ∃ s',
    run_calls granting 1 [CallText pony; CallText pony]
      (fresh "corp" "secret")
    = (Done [None; None], s') ∧
    accessToken (obj s') = "T1"%string ∧
    http_log (trace s')
    = http_log (trace (fresh "corp" "secret"))
        ++ [corp_token_request; pony_message "T1"; pony_message "T1"].
Proof.
  refine (credential_is_fetched_once_for_two_calls granting 0 pony pony
            (fresh "corp" "secret") corp_token_request
            (carrying (token_body "T1")) (token_body "T1")
            {| Errcode := 0; Errmsg := "ok"; AccessToken := "T1";
               ExpiresIn := 7200 |}
            (pony_message "T1") (carrying (status_body 0 "ok"))
            (status_body 0 "ok") {| ErrCode := 0; ErrMsg := "ok" |}
            (pony_message "T1") (carrying (status_body 0 "ok"))
            (status_body 0 "ok") {| ErrCode := 0; ErrMsg := "ok" |}
            _ _ _ _ _ _ _ _ _ _ _ _ _ _ _ _ _ _ _);
    try by_vm.
  vm_compute. discriminate.
Defined.

Lemma Text_sends_one_message_witness :
  ∃ s' body,
    Text accepting 1 pony (holding "T0") = (Done None, s') ∧
    obj s' = obj (holding "T0") ∧
    http_log (trace s')
    = http_log (trace (holding "T0")) ++ [pony_message "T0"] ∧
    Method (pony_message "T0") = "POST"%string ∧
    URL (pony_message "T0")
    = message_send_url +:+ accessToken (obj (holding "T0")) ∧
    Header (pony_message "T0")
    = [("content-type", "application/json");
       ("accept", "application/json")]%string ∧
    Body (pony_message "T0") = Some body ∧
    json_Marshal (any_map_string_any (Text_payload pony)) = Ok body.
Proof.
  refine (Text_sends_one_message accepting 0 pony (holding "T0")
            (pony_message "T0") (carrying (status_body 0 "ok"))
            (status_body 0 "ok") {| ErrCode := 0; ErrMsg := "ok" |}
            _ _ _ _ _ _ _ _);
    try by_vm.
  vm_compute. discriminate.
Defined.

Lemma getMediaID_uploads_and_returns_the_id_witness :
  ∃ s' body contentType,
    getMediaID uploading 1 (wire_text "hello") FILE "test.txt"
      (holding "T0")
    = (Done (Ok "M1"%string), s') ∧
    obj s' = obj (holding "T0") ∧
    http_log (trace s')
    = http_log (trace (holding "T0")) ++ [pony_upload "T0"] ∧
    URL (pony_upload "T0")
    = media_upload_url +:+ accessToken (obj (holding "T0")) +:+ "&type="
        +:+ FILE ∧
    multipart_FormFile "media" "test.txt" (wire_text "hello")
    = Ok (body, contentType) ∧
    Header (pony_upload "T0")
    = [("content-type", contentType);
       ("accept", "application/json")]%string ∧
    Body (pony_upload "T0") = Some body.
Proof.
  refine (getMediaID_uploads_and_returns_the_id uploading 0
            (wire_text "hello") FILE "test.txt" (holding "T0")
            (pony_upload "T0")
            (carrying (media_body (any_string "M1")))
            (media_body (any_string "M1"))
            {| ErrCode := 0; ErrMsg := "ok" |}
            (map_literal [("errcode", any_float64 0);
                          ("errmsg", any_string "ok");
                          ("type", any_string "file");
                          ("media_id", any_string "M1")])
            "M1" _ _ _ _ _ _ _ _ _ _);
    try by_vm.
  vm_compute. discriminate.
Defined.

Lemma File_sends_nothing_after_a_rejected_upload_witness :
  ∃ s',
    File upload_refused 1 pony_file (holding "T0")
    = (Done (Some (errors_New "invalid media type")), s') ∧
    obj s' = obj (holding "T0") ∧
    http_log (trace s')
    = http_log (trace (holding "T0")) ++ [pony_upload "T0"].
Proof.
  refine (File_sends_nothing_after_a_rejected_upload upload_refused 0
            pony_file (holding "T0") (pony_upload "T0")
            (carrying (status_body 40004 "invalid media type"))
            (status_body 40004 "invalid media type")
            {| ErrCode := 40004; ErrMsg := "invalid media type" |}
            _ _ _ _ _ _ _ _ _);
    try by_vm.
  - vm_compute. discriminate.
  - vm_compute. discriminate.
Defined.

Lemma File_payload_entries_witness :
  dom (File_payload pony_file "M1")
  = ({[ "touser"; "msgtype"; "agentid"; FFiletype pony_file; "safe" ]}%string
     : gset string) ∧
  File_payload pony_file "M1" !! "touser"%string
  = Some (any_string (FTouser pony_file)) ∧
  File_payload pony_file "M1" !! "msgtype"%string
  = Some (any_Filetype (FFiletype pony_file)) ∧
  File_payload pony_file "M1" !! "agentid"%string
  = Some (any_int (FAgentID pony_file)) ∧
  File_payload pony_file "M1" !! "safe"%string = Some (any_int 0) ∧
  File_payload pony_file "M1" !! FFiletype pony_file
  = Some (any_map_string_string
            {[ "media_id"%string := "M1"%string;
               "title"%string := FTitle pony_file;
               "description"%string := FDescription pony_file ]}).
Proof.
  refine (File_payload_entries pony_file "M1" _).
  apply list_elem_of_In. vm_compute. tauto.
Defined.

Lemma File_payload_loses_an_entry_on_a_key_clash_witness :
  dom (File_payload safe_file "M1")
  = ({[ "touser"; "msgtype"; "agentid"; "safe" ]}%string : gset string).
Proof.
  refine (File_payload_loses_an_entry_on_a_key_clash safe_file "M1" _).
  apply list_elem_of_In. vm_compute. tauto.
Defined.

Lemma send_never_returns_while_the_credential_is_rejected_witness :
  (send rejecting 9 (Text_buf rejecting pony) (holding "T0")).1 = OutOfFuel.
Proof.
  refine (send_never_returns_while_the_credential_is_rejected rejecting
            (Text_buf rejecting pony) (Text_request pony) corp_token_request
            _ _ _ 9%nat (holding "T0") _ _).
  - apply Text_buf_exchange.
  - intros k r Hr.
    exists (carrying (token_body "T1")), (token_body "T1"),
      {| Errcode := 0; Errmsg := "ok"; AccessToken := "T1";
         ExpiresIn := 7200 |}.
    unfold rejecting, by_endpoint. rewrite Hr.
    repeat split; try by_vm.
    exists (pony_message "T1"). split; by_vm.
  - intros k r Hr.
    exists (carrying (status_body 42001 "expired")),
      (status_body 42001 "expired"),
      {| ErrCode := 42001; ErrMsg := "expired" |}.
    unfold rejecting, by_endpoint. rewrite Hr.
    repeat split; by_vm.
  - repeat split; by_vm.
  - right. exists (pony_message "T0"). split; by_vm.
Defined.
